(** * Intel HEX loader of tek-firmware-updater: a shallow embedding

    The development follows [src/tek-firmware-updater.c]: the record reader
    [read_record_from_line], the inline check sum test and the record
    dispatch of [load_ihex_buffer].  The later revision of the file has the
    same loader.  The earlier revision recomputes the check sum in a
    function of its own, [validate_record], which is embedded too and
    related to the inline test.

    The pieces of the C library the loader calls ([strlen], [sscanf] with
    [%x] conversions, [fgets], [feof]) are modelled in [Module Libc] after
    ISO C11 7.21.6.2 and 7.21.7.2.  Integers of the program are in [Z] with
    the casts written out. *)

From Stdlib Require Import ZArith Ascii String List Lia DecimalString.
From stdpp Require Import base tactics list.
Import ListNotations.
Local Open Scope Z_scope.

(** ** Fixed-width integers *)

(** [(ui8)x], [(ui16)x] and conversion to [size_t] (64 bits). *)
Definition ui8 (x : Z) : Z := x mod 256.
Definition ui16 (x : Z) : Z := x mod 65536.
Definition to_size_t (x : Z) : Z := x mod 2 ^ 64.

(** ** The C library, as far as the loader uses it *)

Module Libc.

Definition code (c : ascii) : Z := Z.of_N (N_of_ascii c).

Definition NUL : ascii := ascii_of_N 0.
Definition LF : ascii := ascii_of_N 10.
Definition CR : ascii := ascii_of_N 13.

Definition is_char (c d : ascii) : bool := code c =? code d.

(** [isspace] in the C locale: space, and [\t \n \v \f \r]. *)
Definition isspace (c : ascii) : bool :=
  (code c =? 32) || ((9 <=? code c) && (code c <=? 13)).

(** Value of a hexadecimal digit, [None] for any other character. *)
Definition xdigit (c : ascii) : option Z :=
  let n := code c in
  if (48 <=? n) && (n <=? 57) then Some (n - 48)
  else if (97 <=? n) && (n <=? 102) then Some (n - 87)
  else if (65 <=? n) && (n <=? 70) then Some (n - 55)
  else None.

Definition isxdigit (c : ascii) : bool :=
  match xdigit c with Some _ => true | None => false end.

(** A buffer filled by [fgets] is read as a C string: it ends at the first
    NUL character. *)
Fixpoint c_str (buf : list ascii) : list ascii :=
  match buf with
  | [] => []
  | c :: t => if is_char c NUL then [] else c :: c_str t
  end.

Fixpoint skip_space (s : list ascii) : list ascii :=
  match s with
  | [] => []
  | c :: t => if isspace c then skip_space t else s
  end.

(** At most [w] hexadecimal digits; returns the accumulated value, the
    number of digits read and the rest of the input. *)
Fixpoint scan_xdigits (w : nat) (s : list ascii) (acc : Z) (n : nat)
  : Z * nat * list ascii :=
  match w, s with
  | S w', c :: t =>
      match xdigit c with
      | Some d => scan_xdigits w' t (acc * 16 + d) (S n)
      | None => (acc, n, s)
      end
  | _, _ => (acc, n, s)
  end.

(** Optional sign, counted in the field width. *)
Definition scan_sign (w : nat) (s : list ascii) : bool * nat * list ascii :=
  match w, s with
  | S w', c :: t =>
      if is_char c "-" then (true, w', t)
      else if is_char c "+" then (false, w', t)
      else (false, w, s)
  | _, _ => (false, w, s)
  end.

(** Optional [0x] or [0X] prefix, counted in the field width.  The input
    item is the longest prefix of a matching sequence, so a prefix is taken
    whenever the width allows both characters; a digit must then follow. *)
Definition scan_prefix (w : nat) (s : list ascii) : nat * list ascii :=
  match w, s with
  | S (S w'), z :: x :: t =>
      if is_char z "0" && (is_char x "x" || is_char x "X") then (w', t)
      else (w, s)
  | _, _ => (w, s)
  end.

(** One [%<w>x] conversion: white space is skipped, then an optionally
    signed hexadecimal integer of at most [w] characters is matched.  The
    result is the [int] the program finds in its variable, and the rest of
    the input.  [None] is an input failure or a matching failure. *)
Definition scan_x (w : nat) (s : list ascii) : option (Z * list ascii) :=
  match skip_space s with
  | [] => None
  | s0 =>
      let '(neg, w1, s1) := scan_sign w s0 in
      let '(w2, s2) := scan_prefix w1 s1 in
      let '(v, n, s3) := scan_xdigits w2 s2 0 0 in
      match n with
      | O => None
      | S _ => Some (if neg : bool then - v else v, s3)
      end
  end.

(** [sscanf( s, "%2x%4x%2x", &a, &b, &c ) == 3] *)
Definition sscanf_2x4x2x (s : list ascii) : option (Z * Z * Z) :=
  match scan_x 2 s with
  | None => None
  | Some (a, s1) =>
      match scan_x 4 s1 with
      | None => None
      | Some (b, s2) =>
          match scan_x 2 s2 with
          | None => None
          | Some (c, _) => Some (a, b, c)
          end
      end
  end.

(** [sscanf( s, "%2x", &a ) == 1] *)
Definition sscanf_2x (s : list ascii) : option Z :=
  match scan_x 2 s with
  | None => None
  | Some (a, _) => Some a
  end.

(** A stream delivers its contents and then either reports end of file or
    a read error, whose [strerror] text it carries. *)
Inductive stream_end :=
  | End_of_file
  | Read_error (strerror : string).

Record FILE := { contents : list ascii; at_end : stream_end }.

(** At most [n] characters, stopping after a new line. *)
Fixpoint fgets_chars (n : nat) (s : list ascii) : list ascii * list ascii :=
  match n, s with
  | S n', c :: t =>
      if is_char c LF then ([c], t)
      else let (l, r) := fgets_chars n' t in (c :: l, r)
  | _, _ => ([], s)
  end.

Definition ends_with_LF (l : list ascii) : bool :=
  match last l with Some c => is_char c LF | None => false end.

Inductive fgets_result :=
  | Fgets_line (line : list ascii) (rest : FILE)
  | Fgets_eof
  | Fgets_error (strerror : string).

(** [fgets( buf, n, f )].  A null pointer is returned at end of file when no
    character was read, and on a read error; the two are told apart by
    [feof]. *)
Definition fgets (n : nat) (f : FILE) : fgets_result :=
  let (l, r) := fgets_chars (n - 1) (contents f) in
  let hit_end :=
    match r with
    | [] => negb (ends_with_LF l) && (length l <? n - 1)%nat
    | _ => false
    end in
  match at_end f with
  | Read_error msg =>
      if hit_end then Fgets_error msg
      else Fgets_line l {| contents := r; at_end := at_end f |}
  | End_of_file =>
      match l with
      | [] => Fgets_eof
      | _ => Fgets_line l {| contents := r; at_end := at_end f |}
      end
  end.

End Libc.

Import Libc.

(** ** Records *)

(** [ihex_record].  [data] holds the [size] bytes the reader stored; the
    rest of the C array is never read. *)
Record ihex_record := {
  size : Z;
  addr : Z;
  type : Z;
  data : list Z;
  checksum : Z
}.

(** The string literals [read_record_from_line] returns. *)
Inductive reader_error :=
  | Invalid_line_length
  | Invalid_start_code
  | Error_parsing_record_header
  | Error_parsing_record_data
  | Error_parsing_record_chechsum.

Definition is_eol (c : ascii) : bool := is_char c LF || is_char c CR.

(** The loop that removes trailing carriage returns and new lines. *)
Fixpoint strip_eol (line : list ascii) : list ascii :=
  match line with
  | [] => []
  | c :: t =>
      match strip_eol t with
      | [] => if is_eol c then [] else [c]
      | t' => c :: t'
      end
  end.

(** The data loop: [n] bytes remain to be read, the next one is byte [i]. *)
Fixpoint read_data (line : list ascii) (i n : nat) (check_sum : Z)
  : option (list Z * Z) :=
  match n with
  | O => Some ([], check_sum)
  | S n' =>
      match sscanf_2x (drop (9 + 2 * i) line) with
      | None => None
      | Some datum =>
          match read_data line (S i) n' (ui8 (check_sum + ui8 datum)) with
          | None => None
          | Some (ds, cs) => Some (ui8 datum :: ds, cs)
          end
      end
  end.

(** [read_record_from_line]: the record and the running check sum, or the
    error string. *)
Definition read_record_from_line (buf : list ascii)
  : reader_error + ihex_record * Z :=
  let line := strip_eol (c_str buf) in
  let length := Z.of_nat (List.length line) in
  if length <? 11 then inl Invalid_line_length
  else
    match line with
    | [] => inl Invalid_line_length
    | c :: line1 =>
        if negb (is_char c ":") then inl Invalid_start_code
        else
          match sscanf_2x4x2x line1 with
          | None => inl Error_parsing_record_header
          | Some (size, addr, type) =>
              if negb (length =? to_size_t (11 + 2 * size))
              then inl Invalid_line_length
              else
                let check_sum := ui8 size in
                let check_sum := ui8 (check_sum + ui8 (Z.shiftr addr 8)) in
                let check_sum := ui8 (check_sum + ui8 addr) in
                let check_sum := ui8 (check_sum + ui8 type) in
                match read_data line 0 (Z.to_nat (to_size_t size)) check_sum with
                | None => inl Error_parsing_record_data
                | Some (ds, check_sum) =>
                    match sscanf_2x (drop (Z.to_nat (9 + 2 * size)) line) with
                    | None => inl Error_parsing_record_chechsum
                    | Some checksum =>
                        inr ({| size := ui8 size;
                                addr := ui16 addr;
                                type := ui8 type;
                                data := ds;
                                checksum := ui8 checksum |}, check_sum)
                    end
                end
          end
    end.

Definition chars (s : string) : list ascii := list_ascii_of_string s.

(** [validate_record] of the earlier revision: the sum is recomputed from
    the stored record. *)
Fixpoint sum_data (sum : Z) (data : list Z) (i n : nat) : Z :=
  match n with
  | O => sum
  | S n' => sum_data (ui8 (sum + nth i data 0)) data (S i) n'
  end.

Definition validate_record (record : ihex_record) : bool :=
  let sum := ui8 (size record) in
  let sum := ui8 (sum + Z.shiftr (addr record) 8) in
  let sum := ui8 (sum + ui8 (addr record)) in
  let sum := ui8 (sum + type record) in
  let sum := sum_data sum (data record) 0 (Z.to_nat (size record)) in
  let sum := ui8 (sum + checksum record) in
  sum =? 0.

(** ** Error values *)

(** One constructor per [return] of an error in [load_ihex_buffer]; the
    value the C function returns is the string [message e]. *)
Inductive error :=
  | Reader (e : reader_error)
  | Unexpected_end_of_file (line_number : Z)
  | Error_reading_ihex_file (line_number : Z) (strerror : string)
  | Data_after_last_record (line_number : Z)
  | Invalid_record (line_number : Z)
  | Addr_too_high_to_upload (line_number : Z)
  | Only_support_8bit_ihex_format (line_number : Z)
  | Invalid_record_type (line_number : Z).

Definition reader_message (e : reader_error) : string :=
  match e with
  | Invalid_line_length => "Invalid line length"
  | Invalid_start_code => "Invalid start code"
  | Error_parsing_record_header => "Error parsing record header"
  | Error_parsing_record_data => "Error parsing record data"
  | Error_parsing_record_chechsum => "Error parsing record chechsum"
  end.

Definition MAX_ERROR_STRING_SZ : nat := 256.

(** [%zu] *)
Definition zu (n : Z) : string := NilZero.string_of_uint (N.to_uint (Z.to_N n)).

(** [format_error]: [vsnprintf] into a buffer of [MAX_ERROR_STRING_SZ]
    characters, the last of which is the terminating NUL. *)
Definition format_error (formatted : string) : string :=
  substring 0 (MAX_ERROR_STRING_SZ - 1) formatted.

Definition message (e : error) : string :=
  match e with
  | Reader e => reader_message e
  | Unexpected_end_of_file n =>
      format_error ("Unexpected end-of-file (line " ++ zu n ++ ")")
  | Error_reading_ihex_file n s =>
      format_error ("Error reading ihex file (line " ++ zu n ++ "): " ++ s)
  | Data_after_last_record n =>
      format_error ("Data after last record (line " ++ zu n ++ ")")
  | Invalid_record n =>
      format_error ("Invalid record (line " ++ zu n ++ ")")
  | Addr_too_high_to_upload n =>
      format_error ("Addr too high to upload (line " ++ zu n ++ ")")
  | Only_support_8bit_ihex_format n =>
      format_error ("Only support 8bit ihex format (line " ++ zu n ++ ")")
  | Invalid_record_type n =>
      format_error ("Invalid record type (line " ++ zu n ++ ")")
  end.

(** The line number an error value was formatted with. *)
Definition error_line (e : error) : option Z :=
  match e with
  | Reader _ => None
  | Unexpected_end_of_file n
  | Error_reading_ihex_file n _
  | Data_after_last_record n
  | Invalid_record n
  | Addr_too_high_to_upload n
  | Only_support_8bit_ihex_format n
  | Invalid_record_type n => Some n
  end.

(** ** The loader *)

(** The local variables of [load_ihex_buffer] and the caller's buffer. *)
Record loader_state := {
  line_number : Z;
  highest_addr : Z;
  last_record_read : bool;
  buffer : list Z
}.

Definition next_line (st : loader_state) : loader_state :=
  {| line_number := to_size_t (line_number st + 1);
     highest_addr := highest_addr st;
     last_record_read := last_record_read st;
     buffer := buffer st |}.

Inductive step_result :=
  | Continue (st : loader_state)
  | Return (e : error) (st : loader_state).

(** [for ( i = 0; i < record.size; ++i ) buffer[record.addr+i] =
    record.data[i];] with [n] iterations left.  The loader only runs it
    under [addr + size < *buffer_sz], so no store falls outside a buffer of
    [*buffer_sz] bytes. *)
Fixpoint copy_data (buffer : list Z) (addr : Z) (data : list Z) (i n : nat)
  : list Z :=
  match n with
  | O => buffer
  | S n' =>
      copy_data (<[Z.to_nat (addr + Z.of_nat i) := nth i data 0]> buffer)
        addr data (S i) n'
  end.

(** The [switch] on the record type. *)
Definition process_record (buffer_sz : Z) (record : ihex_record)
    (st : loader_state) : step_result :=
  if type record =? 0 then
    let end_addr := addr record + size record in
    if end_addr >=? buffer_sz
    then Return (Addr_too_high_to_upload (line_number st)) st
    else
      Continue
        {| line_number := line_number st;
           highest_addr :=
             if end_addr >? highest_addr st then end_addr
             else highest_addr st;
           last_record_read := last_record_read st;
           buffer := copy_data (buffer st) (addr record) (data record) 0
                       (Z.to_nat (size record)) |}
  else if type record =? 1 then
    Continue
      {| line_number := line_number st;
         highest_addr := highest_addr st;
         last_record_read := true;
         buffer := buffer st |}
  else if (2 <=? type record) && (type record <=? 5) then
    Return (Only_support_8bit_ihex_format (line_number st)) st
  else Return (Invalid_record_type (line_number st)) st.

(** The body of the loop once [fgets] has delivered a line and no last
    record has been read: reader, check sum, dispatch. *)
Definition process_line (buffer_sz : Z) (line : list ascii)
    (st : loader_state) : step_result :=
  match read_record_from_line line with
  | inl e => Return (Reader e) st
  | inr (record, check_sum) =>
      if negb (ui8 (check_sum + checksum record) =? 0)
      then Return (Invalid_record (line_number st)) st
      else process_record buffer_sz record st
  end.

Definition IHEX_LINE_MAX_SZ : nat := 521.

(** What the caller observes: the assertion on entry failed, or the
    function returned [ret] (a null pointer is [None]) with the buffer and
    [*buffer_sz] holding the values given here. *)
Inductive outcome :=
  | Aborted
  | Returned (ret : option error) (buffer : list Z) (buffer_sz : Z).

(** One iteration of the [while ( true )] loop: it either goes round again
    with the rest of the file, or leaves the function.  The assignment
    [*buffer_sz = highest_addr] after the loop is part of the exit through
    [break]. *)
Inductive iteration :=
  | Next (f : FILE) (st : loader_state)
  | Exit (o : outcome).

Definition loop_body (buffer_sz : Z) (f : FILE) (st : loader_state)
  : iteration :=
  let st := next_line st in
  match fgets IHEX_LINE_MAX_SZ f with
  | Fgets_eof =>
      if last_record_read st
      then Exit (Returned None (buffer st) (highest_addr st))
      else Exit (Returned (Some (Unexpected_end_of_file (line_number st)))
                   (buffer st) buffer_sz)
  | Fgets_error msg =>
      Exit (Returned (Some (Error_reading_ihex_file (line_number st) msg))
              (buffer st) buffer_sz)
  | Fgets_line line rest =>
      if last_record_read st
      then Exit (Returned (Some (Data_after_last_record (line_number st)))
                   (buffer st) buffer_sz)
      else
        match process_line buffer_sz line st with
        | Return e st' => Exit (Returned (Some e) (buffer st') buffer_sz)
        | Continue st' => Next rest st'
        end
  end.

(** The loop; each iteration takes one unit of [fuel]. *)
Fixpoint load_loop (fuel : nat) (buffer_sz : Z) (f : FILE)
    (st : loader_state) : option outcome :=
  match fuel with
  | O => None
  | S fuel' =>
      match loop_body buffer_sz f st with
      | Exit o => Some o
      | Next f' st' => load_loop fuel' buffer_sz f' st'
      end
  end.

Definition initial_state (buffer : list Z) : loader_state :=
  {| line_number := 0;
     highest_addr := 0;
     last_record_read := false;
     buffer := buffer |}.

(** [load_ihex_buffer( ihex_file, buffer, &buffer_sz )].  Every iteration
    but the last consumes at least one character of the file, so one more
    unit of fuel than the file has characters is enough
    (see [load_loop_fuel]). *)
Definition load_ihex_buffer (ihex_file : FILE) (buffer : list Z)
    (buffer_sz : Z) : option outcome :=
  if buffer_sz =? 0 then Some Aborted
  else load_loop (S (List.length (contents ihex_file))) buffer_sz ihex_file
         (initial_state buffer).

Definition file_of (s : string) : FILE :=
  {| contents := chars s; at_end := End_of_file |}.

Definition nl : string := String LF EmptyString.

(** ** Vocabulary of the statements *)

Fixpoint total (l : list Z) : Z :=
  match l with
  | [] => 0
  | x :: t => x + total t
  end.

Definition is_byte (x : Z) : Prop := 0 <= x < 256.

(** The plain sum of the bytes of a record, check sum byte included. *)
Definition record_sum (r : ihex_record) : Z :=
  size r + addr r / 256 + addr r mod 256 + type r + total (data r)
  + checksum r.

(** The loop started on [f] in state [st], with the fuel
    [load_ihex_buffer] gives it. *)
Definition run (buffer_sz : Z) (f : FILE) (st : loader_state)
  : option outcome :=
  load_loop (S (length (contents f))) buffer_sz f st.

(** [iterates f st f' st']: from the loop head with [f] left to read and
    state [st], some iterations later the loop head is reached again with
    [f'] left and state [st']. *)
Inductive iterates (buffer_sz : Z)
  : FILE -> loader_state -> FILE -> loader_state -> Prop :=
  | iterates_refl f st : iterates buffer_sz f st f st
  | iterates_step f st f1 st1 f2 st2 :
      loop_body buffer_sz f st = Next f1 st1 ->
      iterates buffer_sz f1 st1 f2 st2 ->
      iterates buffer_sz f st f2 st2.

(** [reads f st rs f' st']: the iterations from [(f, st)] to [(f', st')]
    read, validated and dispatched the records [rs], in this order. *)
Inductive reads (buffer_sz : Z)
  : FILE -> loader_state -> list ihex_record -> FILE -> loader_state -> Prop :=
  | reads_nil f st : reads buffer_sz f st [] f st
  | reads_cons f st line rest r cs st1 rs f2 st2 :
      fgets IHEX_LINE_MAX_SZ f = Fgets_line line rest ->
      last_record_read st = false ->
      read_record_from_line line = inr (r, cs) ->
      ui8 (cs + checksum r) = 0 ->
      process_record buffer_sz r (next_line st) = Continue st1 ->
      reads buffer_sz rest st1 rs f2 st2 ->
      reads buffer_sz f st (r :: rs) f2 st2.

(** The end address [addr + size] of a data record, and the largest one
    among the data records of a list; 0 when there is none. *)
Definition end_addr (r : ihex_record) : Z := addr r + size r.

Fixpoint max_end (rs : list ihex_record) : Z :=
  match rs with
  | [] => 0
  | r :: rs' =>
      if type r =? 0 then Z.max (end_addr r) (max_end rs') else max_end rs'
  end.

(** The buffer positions the copy loop stores to for a record: none for a
    record that is not a data record, [addr .. addr+size-1] for one that
    is. *)
Definition stores (r : ihex_record) : list Z :=
  if type r =? 0
  then map (fun i => addr r + Z.of_nat i) (seq 0 (Z.to_nat (size r)))
  else [].

(** The highest position stored to, plus one; 0 when nothing was stored. *)
Fixpoint highest_stored (positions : list Z) : Z :=
  match positions with
  | [] => 0
  | p :: ps => Z.max (p + 1) (highest_stored ps)
  end.

Definition highest_written (rs : list ihex_record) : Z :=
  highest_stored (flat_map stores rs).

(** The byte the last record of [rs] that stores to position [j] holds for
    it. *)
Fixpoint last_write (rs : list ihex_record) (j : nat) : option Z :=
  match rs with
  | [] => None
  | r :: rs' =>
      match last_write rs' j with
      | Some b => Some b
      | None =>
          if (type r =? 0)
             && (Z.to_nat (addr r) <=? j)%nat
             && (j <? Z.to_nat (addr r) + Z.to_nat (size r))%nat
          then data r !! (j - Z.to_nat (addr r))%nat
          else None
      end
  end.

(** The number a string of hexadecimal digits denotes, and the field of
    [w] digits at position [pos] of a line body. *)
Definition hex_value (ds : list ascii) : Z :=
  fold_left (fun acc c => acc * 16 + default 0 (xdigit c)) ds 0.

Definition all_xdigits (s : list ascii) : Prop :=
  Forall (fun c => isxdigit c = true) s.

Definition field (body : list ascii) (pos w : nat) : Z :=
  hex_value (take w (drop pos body)).

(** The record a line [:] [body] of hexadecimal digits denotes, with [n]
    data bytes. *)
Definition record_of_digits (body : list ascii) (n : nat) : ihex_record :=
  {| size := field body 0 2;
     addr := field body 2 4;
     type := field body 6 2;
     data := map (fun i => field body (8 + 2 * i) 2) (seq 0 n);
     checksum := field body (8 + 2 * n) 2 |}.

(** What the reader guarantees of a record. *)
Definition wf_record (r : ihex_record) : Prop :=
  is_byte (size r) /\ 0 <= addr r < 65536 /\
  length (data r) = Z.to_nat (size r).

(** ** Inputs the statements are evaluated on *)

Definition terminator_record : ihex_record :=
  {| size := 0; addr := 0; type := 1; data := []; checksum := 255 |}.

Definition data_line_at_11 : list ascii := chars ":04000B00DEADBEEFB9".

Definition data_record_at_11 : ihex_record :=
  {| size := 4; addr := 11; type := 0; data := [222; 173; 190; 239];
     checksum := 185 |}.

Definition data_only_file : FILE :=
  {| contents := data_line_at_11 ++ [LF]; at_end := End_of_file |}.

Definition end_of_stream : FILE :=
  {| contents := []; at_end := End_of_file |}.

Definition state_after_data_line : loader_state :=
  {| line_number := 1;
     highest_addr := 15;
     last_record_read := false;
     buffer := [0; 0; 0; 0; 0; 0; 0; 0; 0; 0; 0; 222; 173; 190; 239; 0] |}.

Definition state_after_last_record : loader_state :=
  {| line_number := 1;
     highest_addr := 0;
     last_record_read := true;
     buffer := repeat 0 16 |}.

Definition trailing_file : FILE :=
  {| contents := chars "junk"; at_end := End_of_file |}.

Definition empty_record_at_256 : ihex_record :=
  {| size := 0; addr := 256; type := 0; data := []; checksum := 255 |}.

Definition empty_record_file : FILE :=
  file_of (":00010000FF" ++ nl ++ ":00000001FF" ++ nl).

Definition state_after_empty_record : loader_state :=
  {| line_number := 2;
     highest_addr := 256;
     last_record_read := true;
     buffer := repeat 0 1000 |}.

Definition empty_data_record : ihex_record :=
  {| size := 0; addr := 0; type := 0; data := []; checksum := 0 |}.

(** The longest record of the format: 255 data bytes, 521 characters. *)
Definition full_record_line : list ascii :=
  chars ":FF000000" ++ repeat "0"%char 510 ++ chars "01".

Definition full_record : ihex_record :=
  {| size := 255; addr := 0; type := 0; data := repeat 0 255;
     checksum := 1 |}.

Definition full_record_file : FILE :=
  {| contents := full_record_line ++ [LF] ++ chars ":00000001FF" ++ [LF];
     at_end := End_of_file |}.

(** The capacity [main] passes, and a buffer of that many zero bytes. *)
Definition IHEX_BUFFER_MAX_SZ : Z := 16384.

Definition ihex_buffer : list Z := repeat 0 (Z.to_nat IHEX_BUFFER_MAX_SZ).

Definition short_line_file : FILE := file_of ("x" ++ nl).

Definition short_second_line_file : FILE :=
  file_of (":04000B00DEADBEEFB9" ++ nl ++ "x" ++ nl).

(** * Further definitions: vocabulary and inputs of the additional
    properties *)

(** A record with one data byte replaced. *)
Definition with_data_byte (r : ihex_record) (i : nat) (b : Z) : ihex_record :=
  {| size := size r;
     addr := addr r;
     type := type r;
     data := <[i := b]> (data r);
     checksum := checksum r |}.

(** The check sum byte that makes the bytes of a record add up to 0. *)
Definition expected_checksum (r : ihex_record) : Z :=
  (- (size r + addr r / 256 + addr r mod 256 + type r + total (data r)))
  mod 256.

Definition data_body_at_11 : list ascii := chars "04000B00DEADBEEFB9".

(** The two lines of a small image, and the loader state after them. *)
Definition small_image_file : FILE :=
  file_of (":04000B00DEADBEEFB9" ++ nl ++ ":00000001FF" ++ nl).

Definition state_after_small_image : loader_state :=
  {| line_number := 2;
     highest_addr := 15;
     last_record_read := true;
     buffer := [0; 0; 0; 0; 0; 0; 0; 0; 0; 0; 0; 222; 173; 190; 239; 0] |}.

(** A data record, then a line with a wrong check sum. *)
Definition bad_second_line_file : FILE :=
  file_of (":04000B00DEADBEEFB9" ++ nl ++ ":00000001FE" ++ nl).

Definition bad_second_line_then_more : FILE :=
  {| contents := contents bad_second_line_file ++ chars ":0000";
     at_end := Read_error "Input/output error" |}.

(** ** Writing records

    The format the reader expects, as the comment above [IHEX_LINE_MAX_SZ]
    states it: a colon, 2 hexadecimal digits for the size, 4 for the
    address, 2 for the type, 2 for each data byte and 2 for the check sum.
    The loader has no writer; this one serves to state what the reader and
    the loader do with files in the format. *)
Definition hex_digit (v : Z) : ascii :=
  if v <? 10 then ascii_of_N (Z.to_N (48 + v))
  else ascii_of_N (Z.to_N (55 + v)).

Definition hex2 (b : Z) : list ascii :=
  [hex_digit (b / 16); hex_digit (b mod 16)].

Definition hex4 (w : Z) : list ascii := hex2 (w / 256) ++ hex2 (w mod 256).

Definition record_body (r : ihex_record) : list ascii :=
  hex2 (size r) ++ hex4 (addr r) ++ hex2 (type r)
  ++ concat (map hex2 (data r)) ++ hex2 (checksum r).

Definition record_line (r : ihex_record) : list ascii :=
  ":"%char :: record_body r.

(** A record the C structure can hold, with its [size] data bytes. *)
Definition writable (r : ihex_record) : Prop :=
  0 <= size r <= 255 /\ Z.of_nat (length (data r)) = size r /\
  0 <= addr r <= 65535 /\ 0 <= type r <= 255 /\
  0 <= checksum r <= 255 /\ Forall (fun b => 0 <= b <= 255) (data r).

(** A data record as a writer puts it into a file for a buffer of
    [buffer_sz] bytes: right check sum, end below the capacity, and at
    most 254 data bytes, so that line and new line fit the line buffer. *)
Definition loadable (buffer_sz : Z) (r : ihex_record) : Prop :=
  writable r /\ type r = 0 /\ size r <= 254 /\
  checksum r = expected_checksum r /\ addr r + size r < buffer_sz.

(** The file of the data records [ds] and the last record, one per line. *)
Definition image_contents (ds : list ihex_record) : list ascii :=
  concat (map (fun r => record_line r ++ [LF]) ds)
  ++ record_line terminator_record ++ [LF].

Definition second_data_record : ihex_record :=
  {| size := 2; addr := 13; type := 0; data := [1; 2]; checksum := 238 |}.

(** ** [main] of [src/tek-firmware-updater.c]

    What [main] does to the outside, in order. *)
Inductive event :=
  | Stdout (s : string)
  | Stderr (s : string)
  | Fclose (path : string)
  | Upload (buffer : list Z) (buffer_sz : Z).

Definition EXIT_SUCCESS : Z := 0.
Definition EXIT_FAILURE : Z := 1.

(** [upload_buffer_to_dev]: the body is [return NULL;]. *)
Definition upload_buffer_to_dev (buffer : list Z) (buffer_sz : Z)
  : option string := None.

Definition quote : string := String (ascii_of_N 34) EmptyString.
Definition tab : string := String (ascii_of_N 9) EmptyString.

Definition usage (argv0 : string) : string :=
  "Usage: " ++ argv0 ++ " <firmware file>" ++ nl ++ tab
  ++ "File must be in Intel 8bit hex format" ++ nl.

Inductive main_result :=
  | Main_aborted
  | Main_returned (exit_code : Z) (events : list event).

(** [main( argc, argv )] with [argv] = [argv0 :: args], a file system
    [fopen] that maps a path to the stream it opens or to nothing, and the
    bytes [ihex_buffer] happens to hold when [main] is entered (the array
    is not initialised). *)
Definition main (argv0 : string) (args : list string)
    (fopen : string -> option FILE) (ihex_buffer : list Z)
  : option main_result :=
  match args with
  | [path] =>
      match fopen path with
      | None =>
          Some (Main_returned EXIT_FAILURE
                  [Stderr ("Unable to open ihex file " ++ quote ++ path
                           ++ quote ++ nl)])
      | Some ihex_file =>
          match load_ihex_buffer ihex_file ihex_buffer IHEX_BUFFER_MAX_SZ with
          | None => None
          | Some Aborted => Some Main_aborted
          | Some (Returned (Some load_error) _ _) =>
              Some (Main_returned EXIT_FAILURE
                      [Stderr ("Unable to load hex file: "
                               ++ message load_error ++ nl);
                       Fclose path])
          | Some (Returned None buffer ihex_buffer_sz) =>
              match upload_buffer_to_dev buffer ihex_buffer_sz with
              | Some upload_error =>
                  Some (Main_returned EXIT_FAILURE
                          [Upload buffer ihex_buffer_sz;
                           Stderr ("Unable to upload buffer to device: "
                                   ++ upload_error ++ nl);
                           Fclose path])
              | None =>
                  Some (Main_returned EXIT_SUCCESS
                          [Upload buffer ihex_buffer_sz; Fclose path])
              end
          end
      end
  | _ => Some (Main_returned EXIT_FAILURE [Stdout (usage argv0)])
  end.

(** A file system with the small image at one path and nothing else. *)
Definition one_file (path : string) : option FILE :=
  if String.eqb path "firmware.hex" then Some small_image_file else None.

Definition loaded_ihex_buffer : list Z :=
  copy_data ihex_buffer 11 [222; 173; 190; 239] 0 4.

(** ** [get_handle_to_tek_device] of the revision with the USB search

    What libusb reports of a device: [libusb_get_device_descriptor] and
    [libusb_open] give a negative status ([inl]) or, respectively, the
    vendor and product identifiers and the handle ([inr]). *)
Record usb_device := {
  device_descriptor : Z + Z * Z;
  device_open : Z + Z
}.

Definition TECK_VENDOR_ID : Z := 0x0E6A.
Definition TECK_PRODUCT_ID_NORMAL_STATE : Z := 0x030C.
Definition TECK_PRODUCT_ID_PROGRAMMABLE_STATE : Z := 0x030C.
Definition TEK_NORMAL_STATE : Z := TECK_PRODUCT_ID_NORMAL_STATE.
Definition TEK_PROGRAMMABLE_STATE : Z := TECK_PRODUCT_ID_PROGRAMMABLE_STATE.

(** The errors of [get_handle_to_tek_device], one per message. *)
Inductive tek_error :=
  | Unable_to_enumerate_usb_devices (status : Z)
  | Unable_to_usb_get_device_descriptor (status : Z)
  | Multiple_TEK_keyboards_found
  | Unable_to_find_a_TEK_keyboard
  | Unable_to_get_a_handle (status : Z).

(** The [for] loop over the device list: [tek_device] is the device found
    so far, [tek_device_state] what [*tek_device_state] holds. *)
Fixpoint scan_devices (usb_devices : list usb_device)
    (tek_device : option usb_device) (tek_device_state : Z)
  : (tek_error + option usb_device) * Z :=
  match usb_devices with
  | [] => (inr tek_device, tek_device_state)
  | it :: rest =>
      match device_descriptor it with
      | inl status =>
          (inl (Unable_to_usb_get_device_descriptor status), tek_device_state)
      | inr (idVendor, idProduct) =>
          if (idVendor =? TECK_VENDOR_ID)
             && ((idProduct =? TECK_PRODUCT_ID_NORMAL_STATE)
                 || (idProduct =? TECK_PRODUCT_ID_PROGRAMMABLE_STATE))
          then
            match tek_device with
            | Some _ => (inl Multiple_TEK_keyboards_found, tek_device_state)
            | None => scan_devices rest (Some it) idProduct
            end
          else scan_devices rest tek_device tek_device_state
      end
  end.

(** [get_handle_to_tek_device( &handle, &state )]: [usb] is what
    [libusb_get_device_list] gives, a negative status or the devices; the
    result is the error or a null pointer, the handle if one was stored,
    and [*tek_device_state]. *)
Definition get_handle_to_tek_device (usb : Z + list usb_device)
    (tek_device_state : Z) : option tek_error * option Z * Z :=
  match usb with
  | inl status =>
      (Some (Unable_to_enumerate_usb_devices status), None, tek_device_state)
  | inr usb_devices =>
      match scan_devices usb_devices None tek_device_state with
      | (inl e, state) => (Some e, None, state)
      | (inr None, state) => (Some Unable_to_find_a_TEK_keyboard, None, state)
      | (inr (Some tek_device), state) =>
          match device_open tek_device with
          | inl status => (Some (Unable_to_get_a_handle status), None, state)
          | inr handle => (None, Some handle, state)
          end
      end
  end.

(** A device whose descriptor reads and names a TEK, and one whose
    descriptor reads and names something else. *)
Definition is_tek (d : usb_device) : Prop :=
  device_descriptor d = inr (TECK_VENDOR_ID, TECK_PRODUCT_ID_NORMAL_STATE).

Definition is_other (d : usb_device) : Prop :=
  exists idVendor idProduct,
    device_descriptor d = inr (idVendor, idProduct) /\
    (idVendor <> TECK_VENDOR_ID
     \/ idProduct <> TECK_PRODUCT_ID_NORMAL_STATE).

Definition a_mouse : usb_device :=
  {| device_descriptor := inr (0x046D, 0xC077); device_open := inr 1 |}.

Definition a_tek : usb_device :=
  {| device_descriptor := inr (0x0E6A, 0x030C); device_open := inr 2 |}.

(** Two loader states that differ in the buffer at most. *)
Definition same_control (st1 st2 : loader_state) : Prop :=
  line_number st1 = line_number st2 /\
  highest_addr st1 = highest_addr st2 /\
  last_record_read st1 = last_record_read st2.

Definition small_image_without_last_LF : list ascii :=
  chars (":04000B00DEADBEEFB9" ++ nl ++ ":00000001FF").

(** * Proofs *)

(** ** Arithmetic of the casts *)

Lemma ui8_range x : 0 <= ui8 x < 256.
Proof. unfold ui8. apply Z.mod_pos_bound. lia. Qed.

Lemma ui16_range x : 0 <= ui16 x < 65536.
Proof. unfold ui16. apply Z.mod_pos_bound. lia. Qed.

Lemma ui8_small x : 0 <= x < 256 -> ui8 x = x.
Proof. intros H. unfold ui8. apply Z.mod_small. exact H. Qed.

Lemma to_size_t_small x : 0 <= x < 2 ^ 64 -> to_size_t x = x.
Proof. intros H. unfold to_size_t. apply Z.mod_small. exact H. Qed.

Lemma ui8_add_l x y : ui8 (ui8 x + y) = ui8 (x + y).
Proof. unfold ui8. apply Zplus_mod_idemp_l. Qed.

Lemma ui8_add_r x y : ui8 (x + ui8 y) = ui8 (x + y).
Proof. unfold ui8. apply Zplus_mod_idemp_r. Qed.

Lemma ui8_ui16 x : ui8 (ui16 x) = ui8 x.
Proof.
  unfold ui8, ui16.
  rewrite (Z.div_mod x 65536) at 2 by lia.
  replace (65536 * (x / 65536) + x mod 65536)
    with (x mod 65536 + (256 * (x / 65536)) * 256) by lia.
  rewrite Z_mod_plus_full. reflexivity.
Qed.

(** The high byte taken before or after the cast to [ui16] is the same. *)
Lemma shiftr_ui16 x : Z.shiftr (ui16 x) 8 = ui8 (Z.shiftr x 8).
Proof.
  rewrite !Z.shiftr_div_pow2 by lia. unfold ui8, ui16.
  change (2 ^ 8) with 256.
  pose proof (Z.div_mod x 256 ltac:(lia)) as Hx.
  pose proof (Z.mod_pos_bound x 256 ltac:(lia)) as Hlo.
  pose proof (Z.div_mod (x / 256) 256 ltac:(lia)) as Hq.
  pose proof (Z.mod_pos_bound (x / 256) 256 ltac:(lia)) as Hhi.
  assert (Hm : x mod 65536 = 256 * ((x / 256) mod 256) + x mod 256).
  { symmetry. apply Z.mod_unique with (q := x / 256 / 256); lia. }
  rewrite Hm. symmetry.
  apply Z.div_unique with (r := x mod 256); lia.
Qed.

Lemma shiftr_ui16_range x : 0 <= Z.shiftr (ui16 x) 8 < 256.
Proof. rewrite shiftr_ui16. apply ui8_range. Qed.

(** ** The conversions of [sscanf] *)

Lemma xdigit_range c d : xdigit c = Some d -> 0 <= d <= 15.
Proof.
  unfold xdigit. intros H.
  repeat match type of H with
  | (if ?b then _ else _) = _ => destruct b eqn:?
  end; simplify_eq; lia.
Qed.

Lemma scan_xdigits_bound w : forall s acc n v m r,
  scan_xdigits w s acc n = (v, m, r) ->
  0 <= acc -> 0 <= v < (acc + 1) * 16 ^ Z.of_nat w.
Proof.
  induction w as [|w IH]; intros s acc n v m r H Hacc.
  - simpl in H. destruct s; simplify_eq; simpl; lia.
  - destruct s as [|c t]; [simpl in H; simplify_eq; nia|].
    simpl in H. destruct (xdigit c) as [d|] eqn:Hd.
    + apply xdigit_range in Hd. apply IH in H; [|lia].
      rewrite Nat2Z.inj_succ, Z.pow_succ_r by lia.
      split; [lia|]. nia.
    + simplify_eq. rewrite Nat2Z.inj_succ, Z.pow_succ_r by lia. nia.
Qed.

Lemma scan_sign_width w s neg w1 s1 :
  scan_sign w s = (neg, w1, s1) -> (w1 <= w)%nat.
Proof.
  unfold scan_sign. intros H.
  destruct w, s; repeat case_match; simplify_eq; lia.
Qed.

Lemma scan_prefix_width w s w2 s2 :
  scan_prefix w s = (w2, s2) -> (w2 <= w)%nat.
Proof.
  unfold scan_prefix. intros H.
  repeat case_match; simplify_eq; lia.
Qed.

(** A conversion of width [w] yields fewer than [w] digits' worth. *)
Lemma scan_x_bound w s v r :
  scan_x w s = Some (v, r) -> - 16 ^ Z.of_nat w < v < 16 ^ Z.of_nat w.
Proof.
  unfold scan_x. intros H.
  destruct (skip_space s) as [|c0 s0]; [discriminate|].
  destruct (scan_sign w (c0 :: s0)) as [[neg w1] s1] eqn:Hs.
  destruct (scan_prefix w1 s1) as [w2 s2] eqn:Hp.
  destruct (scan_xdigits w2 s2 0 0) as [[x n] s3] eqn:Hx.
  destruct n; [discriminate|]. simplify_eq.
  apply scan_sign_width in Hs. apply scan_prefix_width in Hp.
  apply scan_xdigits_bound in Hx; [|lia].
  assert (16 ^ Z.of_nat w2 <= 16 ^ Z.of_nat w)
    by (apply Z.pow_le_mono_r; lia).
  destruct neg; lia.
Qed.

(** ** The reader *)

Lemma length_c_str buf : (length (c_str buf) <= length buf)%nat.
Proof.
  induction buf as [|c t IH]; simpl; [lia|].
  destruct (is_char c NUL); simpl; lia.
Qed.

Lemma length_strip_eol line : (length (strip_eol line) <= length line)%nat.
Proof.
  induction line as [|c t IH]; simpl; [lia|].
  destruct (strip_eol t); [destruct (is_eol c)|]; simpl in *; lia.
Qed.

Lemma read_data_spec line : forall n i cs ds cs',
  read_data line i n cs = Some (ds, cs') ->
  is_byte cs ->
  length ds = n /\ Forall is_byte ds /\ cs' = ui8 (cs + total ds).
Proof.
  induction n as [|n IH]; intros i cs ds cs' H Hcs; simpl in H.
  - simplify_eq. simpl. rewrite Z.add_0_r, ui8_small by exact Hcs.
    auto.
  - destruct (sscanf_2x _) as [datum|]; [|discriminate].
    destruct (read_data _ _ _ _) as [[ds0 cs0]|] eqn:Hrec; [|discriminate].
    simplify_eq. apply IH in Hrec as (Hlen & Hall & ->); [|apply ui8_range].
    split; [simpl; lia|]. split.
    + constructor; [apply ui8_range|exact Hall].
    + simpl. rewrite ui8_add_l. f_equal. lia.
Qed.

(** What a successful call of the reader tells about the line and the
    record.  The line sits in a buffer of [IHEX_LINE_MAX_SZ] characters. *)
Lemma read_record_inv buf r cs :
  (length buf < IHEX_LINE_MAX_SZ)%nat ->
  read_record_from_line buf = inr (r, cs) ->
  is_byte (size r) /\ 0 <= addr r < 65536 /\ is_byte (type r) /\
  is_byte (checksum r) /\
  length (data r) = Z.to_nat (size r) /\ Forall is_byte (data r) /\
  Z.of_nat (length (strip_eol (c_str buf))) = 11 + 2 * size r /\
  cs = ui8 (size r + Z.shiftr (addr r) 8 + ui8 (addr r) + type r
            + total (data r)).
Proof.
  intros Hbuf. unfold read_record_from_line.
  pose proof (length_c_str buf) as H1.
  pose proof (length_strip_eol (c_str buf)) as H2.
  set (line := strip_eol (c_str buf)) in *.
  destruct (Z.of_nat (length line) <? 11) eqn:Hlen; [discriminate|].
  apply Z.ltb_ge in Hlen.
  destruct line as [|c line1] eqn:Hline; [discriminate|].
  destruct (negb (is_char c ":")); [discriminate|].
  unfold sscanf_2x4x2x.
  destruct (scan_x 2 line1) as [[sz s1]|] eqn:Hsz; [|discriminate].
  destruct (scan_x 4 s1) as [[ad s2]|] eqn:Had; [|discriminate].
  destruct (scan_x 2 s2) as [[ty s3]|] eqn:Hty; [|discriminate].
  destruct (negb _) eqn:Hmatch; [discriminate|].
  apply negb_false_iff, Z.eqb_eq in Hmatch.
  apply scan_x_bound in Hsz. change (16 ^ Z.of_nat 2) with 256 in Hsz.
  unfold IHEX_LINE_MAX_SZ in Hbuf.
  assert (Hsize : 11 + 2 * sz = Z.of_nat (length (c :: line1))).
  { rewrite Hmatch. unfold to_size_t.
    destruct (Z_lt_le_dec (11 + 2 * sz) 0) as [Hneg|Hpos].
    - exfalso. unfold to_size_t in Hmatch.
      replace (11 + 2 * sz) with ((11 + 2 * sz + 2 ^ 64) + (-1) * 2 ^ 64)
        in Hmatch by lia.
      rewrite Z_mod_plus_full, Z.mod_small in Hmatch by lia. lia.
    - rewrite Z.mod_small by lia. reflexivity. }
  assert (Hsz8 : 0 <= sz < 256) by lia.
  rewrite (to_size_t_small sz) by lia.
  destruct (read_data _ _ _ _) as [[ds cs0]|] eqn:Hdata; [|discriminate].
  destruct (sscanf_2x _) as [ck|]; [|discriminate].
  intros Heq. simplify_eq. simpl.
  apply read_data_spec in Hdata as (Hlen' & Hall & ->); [|apply ui8_range].
  rewrite (ui8_small sz) by lia.
  repeat split; try apply ui8_range; try apply ui16_range; try lia; auto.
  rewrite shiftr_ui16, ui8_ui16.
  generalize (ui8 (Z.shiftr ad 8)) (ui8 ad) (ui8 ty) (total ds).
  intros. unfold ui8. Z.to_euclidean_division_equations. lia.
Qed.

Ltac ui8_lia := unfold ui8; Z.to_euclidean_division_equations; lia.

(** ** The check sum *)

Lemma sum_data_total data : forall pre sum,
  is_byte sum ->
  sum_data sum (pre ++ data) (length pre) (length data)
  = ui8 (sum + total data).
Proof.
  induction data as [|x t IH]; intros pre sum Hsum; simpl.
  - rewrite Z.add_0_r, ui8_small by exact Hsum. reflexivity.
  - rewrite nth_middle.
    replace (pre ++ x :: t) with ((pre ++ [x]) ++ t)
      by (rewrite <- app_assoc; reflexivity).
    replace (S (length pre)) with (length (pre ++ [x]))
      by (rewrite length_app; simpl; lia).
    rewrite IH by apply ui8_range.
    rewrite ui8_add_l. f_equal. lia.
Qed.

Lemma validate_record_sum r :
  length (data r) = Z.to_nat (size r) ->
  validate_record r = (record_sum r mod 256 =? 0).
Proof.
  intros Hlen. unfold validate_record, record_sum.
  rewrite <- Hlen.
  rewrite (sum_data_total (data r) []) by apply ui8_range.
  rewrite Z.shiftr_div_pow2 by lia. change (2 ^ 8) with 256.
  f_equal. change (ui8 (addr r)) with (addr r mod 256).
  generalize (addr r / 256) (addr r mod 256) (total (data r)).
  intros. ui8_lia.
Qed.

Lemma inline_check_sum buf r cs :
  (length buf < IHEX_LINE_MAX_SZ)%nat ->
  read_record_from_line buf = inr (r, cs) ->
  ui8 (cs + checksum r) = record_sum r mod 256.
Proof.
  intros Hbuf Hread.
  destruct (read_record_inv _ _ _ Hbuf Hread)
    as (_ & _ & _ & _ & _ & _ & _ & ->).
  unfold record_sum.
  rewrite Z.shiftr_div_pow2 by lia. change (2 ^ 8) with 256.
  change (ui8 (addr r)) with (addr r mod 256).
  generalize (addr r / 256) (addr r mod 256) (total (data r)).
  intros. ui8_lia.
Qed.

(** C1.  For every record the reader parsed from a line, [validate_record]
    accepts it exactly when the sum of size, address high byte, address low
    byte, type, all data bytes and the check sum byte is 0 modulo 256; the
    inline test of [load_ihex_buffer] decides the same; an accepted record
    goes on to the dispatch and a rejected one makes the loader return the
    "Invalid record" error. *)
Theorem validator_accepts_iff_sum_zero buf r cs :
  (length buf < IHEX_LINE_MAX_SZ)%nat ->
  read_record_from_line buf = inr (r, cs) ->
  (validate_record r = true <-> record_sum r mod 256 = 0) /\
  (ui8 (cs + checksum r) =? 0) = validate_record r /\
  forall buffer_sz st,
    (record_sum r mod 256 = 0 ->
     process_line buffer_sz buf st = process_record buffer_sz r st) /\
    (record_sum r mod 256 <> 0 ->
     process_line buffer_sz buf st
     = Return (Invalid_record (line_number st)) st).
Proof.
  intros Hbuf Hread.
  pose proof (read_record_inv _ _ _ Hbuf Hread)
    as (_ & _ & _ & _ & Hlen & _).
  pose proof (inline_check_sum _ _ _ Hbuf Hread) as Hinline.
  rewrite (validate_record_sum r Hlen), Hinline.
  split; [apply Z.eqb_eq|]. split; [reflexivity|].
  intros buffer_sz st. unfold process_line. rewrite Hread, Hinline.
  split; intros H.
  - rewrite H. reflexivity.
  - apply Z.eqb_neq in H. rewrite H. reflexivity.
Qed.

Lemma validator_accepts_iff_sum_zero_witness :
  (length (chars ":00000001FF") < IHEX_LINE_MAX_SZ)%nat /\
  read_record_from_line (chars ":00000001FF") = inr (terminator_record, 1) /\
  (validate_record terminator_record = true
   <-> record_sum terminator_record mod 256 = 0).
Proof.
  assert (Hlen : (length (chars ":00000001FF") < IHEX_LINE_MAX_SZ)%nat)
    by (vm_compute; lia).
  assert (Hread : read_record_from_line (chars ":00000001FF")
                  = inr (terminator_record, 1)) by reflexivity.
  split; [exact Hlen|]. split; [exact Hread|].
  exact (proj1 (validator_accepts_iff_sum_zero _ _ _ Hlen Hread)).
Defined.

(** ** The dispatch on data records *)

Lemma length_copy_data n : forall buffer addr data i,
  length (copy_data buffer addr data i n) = length buffer.
Proof.
  induction n as [|n IH]; intros; simpl; [reflexivity|].
  rewrite IH. apply length_insert.
Qed.

(** The copy loop, position by position: the bytes [i .. i+n) of the record
    land at [addr+i .. addr+i+n), everything else keeps its value. *)
Lemma copy_data_lookup n : forall (buffer : list Z) addr data i j,
  0 <= addr ->
  copy_data buffer addr data i n !! j =
  if decide ((Z.to_nat addr + i <= j < Z.to_nat addr + i + n)%nat
             /\ (j < length buffer)%nat)
  then Some (nth (j - Z.to_nat addr) data 0)
  else buffer !! j.
Proof.
  induction n as [|n IH]; intros buffer addr data i j Haddr; simpl.
  - case_decide; [lia|reflexivity].
  - rewrite IH by exact Haddr. rewrite length_insert.
    replace (Z.to_nat (addr + Z.of_nat i)) with (Z.to_nat addr + i)%nat by lia.
    destruct (decide (j = Z.to_nat addr + i)%nat) as [->|Hne].
    + rewrite decide_False by lia.
      destruct (decide (Z.to_nat addr + i < length buffer)%nat) as [Hlt|Hge].
      * rewrite list_lookup_insert_eq by exact Hlt.
        rewrite decide_True by lia. do 2 f_equal. lia.
      * rewrite decide_False by lia.
        rewrite list_insert_ge by lia. reflexivity.
    + rewrite list_lookup_insert_ne by lia.
      repeat case_decide; try lia; reflexivity.
Qed.

Lemma process_line_valid buf r cs buffer_sz st :
  read_record_from_line buf = inr (r, cs) ->
  ui8 (cs + checksum r) = 0 ->
  process_line buffer_sz buf st = process_record buffer_sz r st.
Proof.
  intros Hread Hsum. unfold process_line. rewrite Hread, Hsum. reflexivity.
Qed.

(** C2.  A validated data record is refused with "Addr too high to upload"
    exactly when [addr + size >= *buffer_sz]; an end address equal to the
    capacity is refused, a smaller one is accepted. *)
Theorem data_record_refused_iff_end_reaches_capacity buf r cs buffer_sz st :
  read_record_from_line buf = inr (r, cs) ->
  ui8 (cs + checksum r) = 0 ->
  type r = 0 ->
  ((exists n st', process_line buffer_sz buf st
                  = Return (Addr_too_high_to_upload n) st')
   <-> addr r + size r >= buffer_sz) /\
  (addr r + size r = buffer_sz ->
   process_line buffer_sz buf st
   = Return (Addr_too_high_to_upload (line_number st)) st) /\
  (addr r + size r < buffer_sz ->
   exists st', process_line buffer_sz buf st = Continue st').
Proof.
  intros Hread Hsum Htype.
  rewrite (process_line_valid _ _ _ _ _ Hread Hsum).
  unfold process_record. rewrite Htype. simpl.
  destruct (addr r + size r >=? buffer_sz) eqn:Hcmp.
  - apply Z.geb_ge in Hcmp. split; [|split].
    + split; [lia|]. intros _. eauto.
    + reflexivity.
    + lia.
  - rewrite Z.geb_leb in Hcmp. apply Z.leb_gt in Hcmp. split; [|split].
    + split; [|lia]. intros (n & st' & H). discriminate.
    + lia.
    + intros _. eauto.
Qed.

Lemma data_record_refused_iff_end_reaches_capacity_witness :
  read_record_from_line data_line_at_11 = inr (data_record_at_11, 71) /\
  ui8 (71 + checksum data_record_at_11) = 0 /\
  type data_record_at_11 = 0 /\
  process_line 15 data_line_at_11 (initial_state (repeat 0 15))
  = Return (Addr_too_high_to_upload 0) (initial_state (repeat 0 15)).
Proof.
  assert (Hread : read_record_from_line data_line_at_11
                  = inr (data_record_at_11, 71)) by reflexivity.
  assert (Hsum : ui8 (71 + checksum data_record_at_11) = 0) by reflexivity.
  assert (Htype : type data_record_at_11 = 0) by reflexivity.
  split; [exact Hread|]. split; [exact Hsum|]. split; [exact Htype|].
  apply (data_record_refused_iff_end_reaches_capacity
    _ _ _ 15 (initial_state (repeat 0 15)) Hread Hsum Htype).
  reflexivity.
Defined.

(** C4.  An in-range data record is copied byte for byte, in order, to
    [addr .. addr+size-1] of the buffer and no other position changes; an
    out-of-range data record makes the loader return "Addr too high to
    upload" with the state, hence the buffer, as it was before the line. *)
Theorem data_record_written_exactly buf r cs buffer_sz st :
  (length buf < IHEX_LINE_MAX_SZ)%nat ->
  read_record_from_line buf = inr (r, cs) ->
  ui8 (cs + checksum r) = 0 ->
  type r = 0 ->
  (addr r + size r < buffer_sz ->
   buffer_sz <= Z.of_nat (length (buffer st)) ->
   exists st',
     process_line buffer_sz buf st = Continue st' /\
     length (data r) = Z.to_nat (size r) /\
     length (buffer st') = length (buffer st) /\
     (forall i, (i < length (data r))%nat ->
        buffer st' !! (Z.to_nat (addr r) + i)%nat = data r !! i) /\
     (forall j, (j < Z.to_nat (addr r)
                 \/ Z.to_nat (addr r) + length (data r) <= j)%nat ->
        buffer st' !! j = buffer st !! j)) /\
  (addr r + size r >= buffer_sz ->
   process_line buffer_sz buf st
   = Return (Addr_too_high_to_upload (line_number st)) st).
Proof.
  intros Hbuf Hread Hsum Htype.
  pose proof (read_record_inv _ _ _ Hbuf Hread)
    as (Hsize & Haddr & _ & _ & Hlen & _).
  rewrite (process_line_valid _ _ _ _ _ Hread Hsum).
  unfold process_record. rewrite Htype. simpl.
  unfold is_byte in Hsize. split.
  - intros Hin Hcap.
    destruct (addr r + size r >=? buffer_sz) eqn:Hcmp;
      [apply Z.geb_ge in Hcmp; lia|].
    eexists. split; [reflexivity|]. simpl.
    split; [exact Hlen|]. split; [apply length_copy_data|]. split.
    + intros i Hi. rewrite copy_data_lookup by lia.
      rewrite decide_True by lia.
      replace (Z.to_nat (addr r) + i - Z.to_nat (addr r))%nat with i by lia.
      destruct (lookup_lt_is_Some_2 (data r) i Hi) as [x Hx].
      rewrite Hx. f_equal. apply nth_lookup_Some with (d := 0) in Hx.
      exact Hx.
    + intros j Hj. rewrite copy_data_lookup by lia.
      rewrite decide_False by lia. reflexivity.
  - intros Hout.
    destruct (addr r + size r >=? buffer_sz) eqn:Hcmp; [reflexivity|].
    rewrite Z.geb_leb in Hcmp. apply Z.leb_gt in Hcmp. lia.
Qed.

Lemma data_record_written_exactly_witness :
  (length data_line_at_11 < IHEX_LINE_MAX_SZ)%nat /\
  read_record_from_line data_line_at_11 = inr (data_record_at_11, 71) /\
  ui8 (71 + checksum data_record_at_11) = 0 /\
  type data_record_at_11 = 0 /\
  exists st',
    process_line 16 data_line_at_11 (initial_state (repeat 0 16))
    = Continue st' /\
    length (data data_record_at_11) = Z.to_nat (size data_record_at_11) /\
    length (buffer st') = length (buffer (initial_state (repeat 0 16))) /\
    (forall i, (i < length (data data_record_at_11))%nat ->
       buffer st' !! (Z.to_nat (addr data_record_at_11) + i)%nat
       = data data_record_at_11 !! i) /\
    (forall j, (j < Z.to_nat (addr data_record_at_11)
                \/ Z.to_nat (addr data_record_at_11)
                   + length (data data_record_at_11) <= j)%nat ->
       buffer st' !! j = buffer (initial_state (repeat 0 16)) !! j).
Proof.
  assert (Hlen : (length data_line_at_11 < IHEX_LINE_MAX_SZ)%nat)
    by (vm_compute; lia).
  assert (Hread : read_record_from_line data_line_at_11
                  = inr (data_record_at_11, 71)) by reflexivity.
  assert (Hsum : ui8 (71 + checksum data_record_at_11) = 0) by reflexivity.
  assert (Htype : type data_record_at_11 = 0) by reflexivity.
  split; [exact Hlen|]. split; [exact Hread|].
  split; [exact Hsum|]. split; [exact Htype|].
  apply (data_record_written_exactly _ _ _ 16 (initial_state (repeat 0 16))
           Hlen Hread Hsum Htype).
  - reflexivity.
  - simpl. lia.
Defined.

(** ** The loop *)

Lemma fgets_chars_app n : forall s l r,
  fgets_chars n s = (l, r) -> s = l ++ r /\ (length l <= n)%nat.
Proof.
  induction n as [|n IH]; intros s l r H; simpl in H.
  - simplify_eq. split; [reflexivity|simpl; lia].
  - destruct s as [|c t]; [simplify_eq; split; [reflexivity|simpl; lia]|].
    destruct (is_char c LF).
    + simplify_eq. split; [reflexivity|simpl; lia].
    + destruct (fgets_chars n t) as [l0 r0] eqn:Hrec. simplify_eq.
      destruct (IH _ _ _ Hrec) as [-> Hlen].
      split; [reflexivity|simpl; lia].
Qed.

Lemma fgets_chars_nil n s r :
  fgets_chars n s = ([], r) -> n = O \/ s = [].
Proof.
  destruct n, s as [|c t]; simpl; auto.
  destruct (is_char c LF); [discriminate|].
  destruct (fgets_chars n t). discriminate.
Qed.

(** A line [fgets] delivers is not empty, fits the line buffer, and is
    taken off the front of the stream. *)
Lemma fgets_line_inv f line rest :
  fgets IHEX_LINE_MAX_SZ f = Fgets_line line rest ->
  contents f = line ++ contents rest /\ line <> [] /\
  at_end rest = at_end f /\ (length line < IHEX_LINE_MAX_SZ)%nat.
Proof.
  unfold fgets, IHEX_LINE_MAX_SZ.
  destruct (fgets_chars (521 - 1) (contents f)) as [l r] eqn:Hchars.
  pose proof (fgets_chars_app _ _ _ _ Hchars) as [Happ Hlen].
  assert (Hnil : l = [] -> r = []).
  { intros ->. apply fgets_chars_nil in Hchars as [?|Hs]; [discriminate|].
    rewrite Hs in Happ. simpl in Happ. congruence. }
  destruct (at_end f) eqn:Hend.
  - destruct l as [|c l]; [discriminate|].
    intros H. simplify_eq. simpl in *. repeat split; auto; lia.
  - destruct l as [|c l].
    + rewrite Hnil by reflexivity. simpl. discriminate.
    + case_match; [discriminate|].
      intros Heq. simplify_eq. simpl in *. repeat split; auto; lia.
Qed.

Lemma loop_body_consumes buffer_sz f st f' st' :
  loop_body buffer_sz f st = Next f' st' ->
  (length (contents f') < length (contents f))%nat.
Proof.
  unfold loop_body. intros H.
  destruct (fgets IHEX_LINE_MAX_SZ f) as [line rest| |msg] eqn:Hfgets;
    repeat case_match; simplify_eq.
  apply fgets_line_inv in Hfgets as (-> & Hne & _).
  rewrite length_app. destruct line; [congruence|simpl; lia].
Qed.

(** With more fuel than the file has characters the loop returns. *)
Lemma load_loop_fuel buffer_sz : forall fuel f st,
  (length (contents f) < fuel)%nat ->
  exists o, load_loop fuel buffer_sz f st = Some o.
Proof.
  induction fuel as [|fuel IH]; intros f st Hfuel; [lia|].
  simpl. destruct (loop_body buffer_sz f st) as [f' st'|o] eqn:Hbody.
  - apply IH. apply loop_body_consumes in Hbody. lia.
  - eauto.
Qed.

Lemma load_loop_more_fuel buffer_sz : forall fuel fuel' f st o,
  load_loop fuel buffer_sz f st = Some o ->
  (fuel <= fuel')%nat ->
  load_loop fuel' buffer_sz f st = Some o.
Proof.
  induction fuel as [|fuel IH]; intros fuel' f st o H Hle; [discriminate|].
  destruct fuel' as [|fuel']; [lia|].
  simpl in *. destruct (loop_body buffer_sz f st); [|exact H].
  apply IH with (fuel' := fuel') in H; [exact H|lia].
Qed.

Lemma run_exit buffer_sz f st o :
  loop_body buffer_sz f st = Exit o -> run buffer_sz f st = Some o.
Proof. intros H. unfold run. simpl. rewrite H. reflexivity. Qed.

Lemma run_next buffer_sz f st f' st' :
  loop_body buffer_sz f st = Next f' st' ->
  run buffer_sz f st = run buffer_sz f' st'.
Proof.
  intros H. unfold run at 1. simpl. rewrite H.
  pose proof (loop_body_consumes _ _ _ _ _ H) as Hlt.
  destruct (load_loop_fuel buffer_sz (S (length (contents f'))) f' st')
    as [o Ho]; [lia|].
  unfold run. rewrite Ho.
  apply load_loop_more_fuel with (fuel := S (length (contents f'))); [auto|lia].
Qed.

Lemma run_iterates buffer_sz f st f' st' :
  iterates buffer_sz f st f' st' ->
  run buffer_sz f st = run buffer_sz f' st'.
Proof.
  induction 1 as [|f st f1 st1 f2 st2 Hbody _ IH]; [reflexivity|].
  rewrite (run_next _ _ _ _ _ Hbody). exact IH.
Qed.

Lemma load_ihex_buffer_run f buffer buffer_sz :
  buffer_sz <> 0 ->
  load_ihex_buffer f buffer buffer_sz
  = run buffer_sz f (initial_state buffer).
Proof.
  intros H. unfold load_ihex_buffer.
  apply Z.eqb_neq in H. rewrite H. reflexivity.
Qed.

(** [load_ihex_buffer] is total. *)
Lemma load_ihex_buffer_returns f buffer buffer_sz :
  exists o, load_ihex_buffer f buffer buffer_sz = Some o.
Proof.
  unfold load_ihex_buffer. destruct (buffer_sz =? 0); [eauto|].
  apply load_loop_fuel. lia.
Qed.

(** The flag [last_record_read] goes up exactly on a record of type 1. *)
Lemma process_record_flag buffer_sz r st st' :
  process_record buffer_sz r st = Continue st' ->
  last_record_read st' = last_record_read st || (type r =? 1).
Proof.
  unfold process_record. intros H.
  destruct (type r =? 0) eqn:H0.
  - apply Z.eqb_eq in H0. rewrite H0. simpl.
    case_match; simplify_eq. simpl. rewrite orb_false_r. reflexivity.
  - destruct (type r =? 1); [|case_match; discriminate].
    simplify_eq. simpl. rewrite orb_true_r. reflexivity.
Qed.

Lemma process_line_flag buffer_sz line st st' :
  process_line buffer_sz line st = Continue st' ->
  exists r cs, read_record_from_line line = inr (r, cs) /\
    last_record_read st' = last_record_read st || (type r =? 1).
Proof.
  unfold process_line. intros H.
  destruct (read_record_from_line line) as [e|[r cs]]; [discriminate|].
  destruct (negb _); [discriminate|].
  exists r, cs. split; [reflexivity|].
  eapply process_record_flag, H.
Qed.

(** C6.  When the loop comes to the end of the input and no last record has
    been read, [load_ihex_buffer] returns "Unexpected end-of-file"; the
    empty input is the case of no iteration at all. *)
Theorem end_of_file_before_last_record buffer0 buffer_sz f f' st' :
  buffer_sz <> 0 ->
  iterates buffer_sz f (initial_state buffer0) f' st' ->
  fgets IHEX_LINE_MAX_SZ f' = Fgets_eof ->
  last_record_read st' = false ->
  load_ihex_buffer f buffer0 buffer_sz
  = Some (Returned
            (Some (Unexpected_end_of_file (to_size_t (line_number st' + 1))))
            (buffer st') buffer_sz) /\
  load_ihex_buffer {| contents := []; at_end := End_of_file |} buffer0 buffer_sz
  = Some (Returned (Some (Unexpected_end_of_file 1)) buffer0 buffer_sz).
Proof.
  intros Hsz Hiter Heof Hflag. split.
  - rewrite load_ihex_buffer_run by exact Hsz.
    rewrite (run_iterates _ _ _ _ _ Hiter).
    apply run_exit. unfold loop_body. rewrite Heof. simpl.
    rewrite Hflag. reflexivity.
  - rewrite load_ihex_buffer_run by exact Hsz. reflexivity.
Qed.

Lemma end_of_file_before_last_record_witness :
  16 <> 0 /\
  iterates 16 data_only_file (initial_state (repeat 0 16))
    end_of_stream state_after_data_line /\
  fgets IHEX_LINE_MAX_SZ end_of_stream = Fgets_eof /\
  last_record_read state_after_data_line = false /\
  load_ihex_buffer data_only_file (repeat 0 16) 16
  = Some (Returned (Some (Unexpected_end_of_file 2))
            (buffer state_after_data_line) 16).
Proof.
  assert (Hsz : 16 <> 0) by lia.
  assert (Hiter : iterates 16 data_only_file (initial_state (repeat 0 16))
                    end_of_stream state_after_data_line).
  { eapply iterates_step; [reflexivity|apply iterates_refl]. }
  split; [exact Hsz|]. split; [exact Hiter|].
  split; [reflexivity|]. split; [reflexivity|].
  exact (proj1 (end_of_file_before_last_record _ _ _ _ _ Hsz Hiter
                  eq_refl eq_refl)).
Defined.

(** C7.  A record of type 1 sets [last_record_read]; no path of the
    dispatch clears it, so once set it stays set over any number of
    iterations; and with the flag set, any line [fgets] delivers makes the
    loop return "Data after last record" at once, whatever the line holds:
    the reader is not called and the buffer is the one the last record
    left. *)
Theorem nothing_follows_the_last_record buffer_sz f st line rest :
  last_record_read st = true ->
  fgets IHEX_LINE_MAX_SZ f = Fgets_line line rest ->
  loop_body buffer_sz f st
  = Exit (Returned
            (Some (Data_after_last_record (to_size_t (line_number st + 1))))
            (buffer st) buffer_sz) /\
  run buffer_sz f st
  = Some (Returned
            (Some (Data_after_last_record (to_size_t (line_number st + 1))))
            (buffer st) buffer_sz) /\
  (forall r st0, type r = 1 ->
     exists st1, process_record buffer_sz r st0 = Continue st1 /\
                 last_record_read st1 = true /\ buffer st1 = buffer st0) /\
  (forall r st', process_record buffer_sz r st = Continue st' ->
     last_record_read st' = true) /\
  (forall f' st', iterates buffer_sz f st f' st' ->
     last_record_read st' = true).
Proof.
  intros Hflag Hline.
  assert (Hbody : loop_body buffer_sz f st
    = Exit (Returned
              (Some (Data_after_last_record (to_size_t (line_number st + 1))))
              (buffer st) buffer_sz)).
  { unfold loop_body. rewrite Hline. simpl. rewrite Hflag. reflexivity. }
  split; [exact Hbody|]. split; [apply run_exit, Hbody|].
  split; [|split].
  - intros r st0 Ht. unfold process_record. rewrite Ht. simpl. eauto.
  - intros r st' H. apply process_record_flag in H.
    rewrite H, Hflag. reflexivity.
  - intros f' st' Hiter. destruct Hiter; [exact Hflag|congruence].
Qed.

Lemma nothing_follows_the_last_record_witness :
  last_record_read state_after_last_record = true /\
  fgets IHEX_LINE_MAX_SZ trailing_file
  = Fgets_line (chars "junk") end_of_stream /\
  loop_body 16 trailing_file state_after_last_record
  = Exit (Returned (Some (Data_after_last_record 2)) (repeat 0 16) 16).
Proof.
  split; [reflexivity|]. split; [reflexivity|].
  exact (proj1 (nothing_follows_the_last_record 16 trailing_file
                  state_after_last_record (chars "junk") end_of_stream
                  eq_refl eq_refl)).
Defined.

(** Every way out of the loop: an error leaves [*buffer_sz] alone, and the
    only exit without error is at the end of the file with the flag set,
    where [*buffer_sz] receives [highest_addr]. *)
Lemma load_loop_outcome buffer_sz : forall fuel f st ret buffer' buffer_sz',
  load_loop fuel buffer_sz f st = Some (Returned ret buffer' buffer_sz') ->
  match ret with
  | Some _ => buffer_sz' = buffer_sz
  | None =>
      exists f' st',
        iterates buffer_sz f st f' st' /\
        last_record_read st' = true /\
        fgets IHEX_LINE_MAX_SZ f' = Fgets_eof /\
        buffer_sz' = highest_addr st' /\ buffer' = buffer st'
  end.
Proof.
  induction fuel as [|fuel IH]; intros f st ret b sz H; [discriminate|].
  simpl in H. destruct (loop_body buffer_sz f st) as [f1 st1|o] eqn:Hbody.
  - apply IH in H. destruct ret; [exact H|].
    destruct H as (f' & st' & Hiter & H).
    exists f', st'. split; [|exact H].
    eapply iterates_step; eauto.
  - simplify_eq. unfold loop_body in Hbody.
    destruct (fgets IHEX_LINE_MAX_SZ f) as [line rest| |msg] eqn:Hfgets;
      simpl in Hbody.
    + destruct (last_record_read st); [simplify_eq; reflexivity|].
      destruct (process_line _ _ _); simplify_eq. reflexivity.
    + destruct (last_record_read st) eqn:Hflag; simplify_eq; [|reflexivity].
      exists f, st. repeat split; auto. apply iterates_refl.
    + simplify_eq. reflexivity.
Qed.

(** C10.  When [load_ihex_buffer] returns an error, [*buffer_sz] holds the
    capacity it was called with; it is overwritten only on the return
    without error, with the [highest_addr] the loop ended with. *)
Theorem buffer_sz_overwritten_only_on_success
    f buffer0 buffer_sz ret buffer' buffer_sz' :
  load_ihex_buffer f buffer0 buffer_sz
  = Some (Returned ret buffer' buffer_sz') ->
  match ret with
  | Some _ => buffer_sz' = buffer_sz
  | None =>
      exists f' st',
        iterates buffer_sz f (initial_state buffer0) f' st' /\
        last_record_read st' = true /\
        fgets IHEX_LINE_MAX_SZ f' = Fgets_eof /\
        buffer_sz' = highest_addr st' /\ buffer' = buffer st'
  end.
Proof.
  unfold load_ihex_buffer. destruct (buffer_sz =? 0); [discriminate|].
  apply load_loop_outcome.
Qed.

Lemma buffer_sz_overwritten_only_on_success_witness :
  load_ihex_buffer trailing_file (repeat 0 16) 16
  = Some (Returned (Some (Reader Invalid_line_length)) (repeat 0 16) 16) /\
  16 = 16.
Proof.
  assert (H : load_ihex_buffer trailing_file (repeat 0 16) 16
    = Some (Returned (Some (Reader Invalid_line_length)) (repeat 0 16) 16))
    by reflexivity.
  split; [exact H|].
  exact (buffer_sz_overwritten_only_on_success _ _ _ _ _ _ H).
Defined.

(** ** The records of a load and [highest_addr] *)

Lemma loop_body_next_inv buffer_sz f st f' st' :
  loop_body buffer_sz f st = Next f' st' ->
  exists line r cs,
    fgets IHEX_LINE_MAX_SZ f = Fgets_line line f' /\
    last_record_read st = false /\
    read_record_from_line line = inr (r, cs) /\
    ui8 (cs + checksum r) = 0 /\
    process_record buffer_sz r (next_line st) = Continue st'.
Proof.
  unfold loop_body. intros H.
  destruct (fgets IHEX_LINE_MAX_SZ f) as [line rest| |msg];
    simpl in H; [|case_match; discriminate|discriminate].
  destruct (last_record_read st) eqn:Hflag; [discriminate|].
  unfold process_line in H.
  destruct (read_record_from_line line) as [e|[r cs]] eqn:Hread;
    [discriminate|].
  destruct (ui8 (cs + checksum r) =? 0) eqn:Hsum; simpl in H;
    [|discriminate].
  apply Z.eqb_eq in Hsum.
  destruct (process_record _ _ _) as [st1|] eqn:Hrec; simplify_eq.
  exists line, r, cs. auto.
Qed.

Lemma loop_body_next buffer_sz f st line rest r cs st1 :
  fgets IHEX_LINE_MAX_SZ f = Fgets_line line rest ->
  last_record_read st = false ->
  read_record_from_line line = inr (r, cs) ->
  ui8 (cs + checksum r) = 0 ->
  process_record buffer_sz r (next_line st) = Continue st1 ->
  loop_body buffer_sz f st = Next rest st1.
Proof.
  intros Hline Hflag Hread Hsum Hrec. unfold loop_body.
  rewrite Hline. simpl. rewrite Hflag.
  rewrite (process_line_valid _ _ _ _ _ Hread Hsum), Hrec. reflexivity.
Qed.

Lemma reads_iterates buffer_sz f st rs f' st' :
  reads buffer_sz f st rs f' st' -> iterates buffer_sz f st f' st'.
Proof.
  induction 1; [apply iterates_refl|].
  eapply iterates_step; [|eassumption].
  eapply loop_body_next; eassumption.
Qed.

Lemma iterates_reads buffer_sz f st f' st' :
  iterates buffer_sz f st f' st' -> exists rs, reads buffer_sz f st rs f' st'.
Proof.
  induction 1 as [|f st f1 st1 f2 st2 Hbody _ [rs IH]].
  - exists []. apply reads_nil.
  - apply loop_body_next_inv in Hbody as (line & r & cs & H).
    destruct H as (? & ? & ? & ? & ?).
    exists (r :: rs). eapply reads_cons; eassumption.
Qed.

(** What the dispatch does to the state when it goes on. *)
Lemma process_record_continue buffer_sz r st st' :
  process_record buffer_sz r st = Continue st' ->
  line_number st' = line_number st /\
  (type r = 0 /\ addr r + size r < buffer_sz /\
   highest_addr st' = Z.max (highest_addr st) (addr r + size r) /\
   last_record_read st' = last_record_read st /\
   buffer st' = copy_data (buffer st) (addr r) (data r) 0
                  (Z.to_nat (size r))
   \/
   type r = 1 /\ highest_addr st' = highest_addr st /\
   last_record_read st' = true /\ buffer st' = buffer st).
Proof.
  unfold process_record. intros H.
  destruct (type r =? 0) eqn:H0.
  - apply Z.eqb_eq in H0.
    destruct (addr r + size r >=? buffer_sz) eqn:Hcmp; [discriminate|].
    rewrite Z.geb_leb in Hcmp. apply Z.leb_gt in Hcmp.
    simplify_eq. simpl. split; [reflexivity|]. left.
    repeat split; auto.
    destruct (addr r + size r >? highest_addr st) eqn:Hgt.
    + apply Z.gtb_gt in Hgt. lia.
    + rewrite Z.gtb_ltb in Hgt. apply Z.ltb_ge in Hgt. lia.
  - destruct (type r =? 1) eqn:H1; [|case_match; discriminate].
    apply Z.eqb_eq in H1. simplify_eq. simpl.
    split; [reflexivity|]. right. auto.
Qed.

Lemma reads_wf buffer_sz f st rs f' st' :
  reads buffer_sz f st rs f' st' -> Forall wf_record rs.
Proof.
  induction 1 as [|f st line rest r cs st1 rs f2 st2 Hline _ Hread _ _ _ IH];
    constructor; [|exact IH].
  apply fgets_line_inv in Hline as (_ & _ & _ & Hlen).
  destruct (read_record_inv _ _ _ Hlen Hread) as (? & ? & _ & _ & ? & _).
  unfold wf_record. auto.
Qed.

Lemma max_end_nonneg rs : Forall wf_record rs -> 0 <= max_end rs.
Proof.
  induction 1 as [|r rs (Hsize & Haddr & _) _ IH]; simpl; [lia|].
  unfold is_byte, end_addr in *. destruct (type r =? 0); lia.
Qed.

Lemma reads_never_lowers buffer_sz f st rs f' st' :
  reads buffer_sz f st rs f' st' -> highest_addr st <= highest_addr st'.
Proof.
  induction 1 as [|f st line rest r cs st1 rs f2 st2 _ _ _ _ Hrec _ IH];
    [lia|].
  apply process_record_continue in Hrec as [_ Hrec]. simpl in Hrec.
  destruct Hrec as [(_ & _ & Hh & _)|(_ & Hh & _)]; lia.
Qed.

Lemma reads_highest_addr buffer_sz f st rs f' st' :
  reads buffer_sz f st rs f' st' ->
  0 <= highest_addr st ->
  highest_addr st' = Z.max (highest_addr st) (max_end rs).
Proof.
  induction 1 as [|f st line rest r cs st1 rs f2 st2 _ _ _ _ Hrec _ IH];
    intros Hpos; simpl; [lia|].
  apply process_record_continue in Hrec as [_ Hrec]. simpl in Hrec.
  destruct Hrec as [(Ht & _ & Hh & _)|(Ht & Hh & _)];
    rewrite IH, Hh, Ht by lia; simpl; unfold end_addr; lia.
Qed.

Lemma highest_stored_nonneg ps : 0 <= highest_stored ps.
Proof. induction ps as [|p ps IH]; simpl; lia. Qed.

Lemma highest_stored_app ps qs :
  highest_stored (ps ++ qs) = Z.max (highest_stored ps) (highest_stored qs).
Proof.
  pose proof (highest_stored_nonneg qs).
  induction ps as [|p ps IH]; simpl; [|rewrite IH]; lia.
Qed.

Lemma highest_stored_span a n : forall k,
  0 <= a ->
  highest_stored (map (fun i => a + Z.of_nat i) (seq k (S n)))
  = a + Z.of_nat k + Z.of_nat (S n).
Proof.
  induction n as [|n IH]; intros k Ha.
  - simpl. lia.
  - change (seq k (S (S n))) with (k :: seq (S k) (S n)).
    rewrite map_cons.
    change (highest_stored (?p :: ?ps))
      with (Z.max (p + 1) (highest_stored ps)).
    rewrite IH by exact Ha. lia.
Qed.

(** Where no data record is empty, the largest end address is one past the
    highest position stored to. *)
Lemma max_end_highest_written rs :
  Forall wf_record rs ->
  Forall (fun r => type r = 0 -> 0 < size r) rs ->
  max_end rs = highest_written rs.
Proof.
  unfold highest_written.
  induction 1 as [|r rs (Hsize & Haddr & _) Hwf IH]; intros Hne;
    [reflexivity|].
  apply Forall_cons_1 in Hne as [Hr Hne]. simpl.
  pose proof (max_end_nonneg rs Hwf) as Hpos.
  unfold is_byte in Hsize. rewrite highest_stored_app, <- IH by exact Hne.
  unfold stores. destruct (type r =? 0) eqn:Ht.
  - apply Z.eqb_eq in Ht. specialize (Hr Ht).
    destruct (Z.to_nat (size r)) as [|n] eqn:Hn; [lia|].
    rewrite highest_stored_span by lia. unfold end_addr. lia.
  - simpl. lia.
Qed.

Lemma reads_length buffer_sz f st rs f' st' :
  reads buffer_sz f st rs f' st' ->
  length (buffer st') = length (buffer st).
Proof.
  induction 1 as [|f st line rest r cs st1 rs f2 st2 _ _ _ _ Hrec _ IH];
    [reflexivity|].
  apply process_record_continue in Hrec as [_ Hrec]. simpl in Hrec.
  rewrite IH.
  destruct Hrec as [(_ & _ & _ & _ & ->)|(_ & _ & _ & ->)];
    [apply length_copy_data|reflexivity].
Qed.

(** The buffer after the records [rs]: each position holds what the last
    record that stores to it wrote, or what it held before. *)
Lemma reads_last_write buffer_sz f st rs f' st' :
  reads buffer_sz f st rs f' st' ->
  buffer_sz <= Z.of_nat (length (buffer st)) ->
  forall j,
    buffer st' !! j =
    match last_write rs j with
    | Some b => Some b
    | None => buffer st !! j
    end.
Proof.
  induction 1 as [|f st line rest r cs st1 rs f2 st2 Hline _ Hread _ Hrec
                    Hrest IH]; intros Hcap j; [reflexivity|].
  apply fgets_line_inv in Hline as (_ & _ & _ & Hlen).
  destruct (read_record_inv _ _ _ Hlen Hread)
    as (Hsize & Haddr & _ & _ & Hdata & _).
  unfold is_byte in Hsize.
  apply process_record_continue in Hrec as [_ Hrec]. simpl in Hrec.
  simpl. destruct Hrec as [(Ht & Hin & _ & _ & Hb)|(Ht & _ & _ & Hb)].
  - rewrite IH by (rewrite Hb, length_copy_data; exact Hcap).
    destruct (last_write rs j); [reflexivity|].
    rewrite Hb, copy_data_lookup, Ht by lia. simpl.
    destruct (Z.to_nat (addr r) <=? j)%nat eqn:Hlo; simpl.
    + apply Nat.leb_le in Hlo.
      destruct (j <? Z.to_nat (addr r) + Z.to_nat (size r))%nat eqn:Hhi.
      * apply Nat.ltb_lt in Hhi. rewrite decide_True by lia.
        destruct (lookup_lt_is_Some_2 (data r) (j - Z.to_nat (addr r)))
          as [x Hx]; [lia|].
        rewrite Hx. f_equal. apply nth_lookup_Some with (d := 0) in Hx.
        exact Hx.
      * apply Nat.ltb_ge in Hhi. rewrite decide_False by lia. reflexivity.
    + apply Nat.leb_gt in Hlo. rewrite decide_False by lia. reflexivity.
  - rewrite IH by (rewrite Hb; exact Hcap).
    rewrite Hb, Ht. simpl. destruct (last_write rs j); reflexivity.
Qed.

(** C5, as the code has it.  [highest_addr] starts at 0, no record lowers
    it, and after any sequence of records it is the largest [addr + size]
    among the data records read so far; that is one past the highest
    position written provided no data record is empty.  Later records
    overwrite earlier ones: each position holds the byte of the last record
    that stores to it. *)
Theorem highest_addr_is_largest_end buffer_sz f st rs f' st' :
  reads buffer_sz f st rs f' st' ->
  (forall buffer0, highest_addr (initial_state buffer0) = 0) /\
  highest_addr st <= highest_addr st' /\
  (highest_addr st = 0 -> highest_addr st' = max_end rs) /\
  (highest_addr st = 0 ->
   Forall (fun r => type r = 0 -> 0 < size r) rs ->
   highest_addr st' = highest_written rs) /\
  (buffer_sz <= Z.of_nat (length (buffer st)) ->
   forall j,
     buffer st' !! j =
     match last_write rs j with
     | Some b => Some b
     | None => buffer st !! j
     end).
Proof.
  intros Hreads.
  pose proof (reads_wf _ _ _ _ _ _ Hreads) as Hwf.
  pose proof (max_end_nonneg _ Hwf) as Hpos.
  assert (Hmax : highest_addr st = 0 -> highest_addr st' = max_end rs).
  { intros H0. rewrite (reads_highest_addr _ _ _ _ _ _ Hreads); lia. }
  split; [reflexivity|].
  split; [apply (reads_never_lowers _ _ _ _ _ _ Hreads)|].
  split; [exact Hmax|]. split.
  - intros H0 Hne. rewrite <- (max_end_highest_written rs Hwf Hne). auto.
  - apply (reads_last_write _ _ _ _ _ _ Hreads).
Qed.

Lemma highest_addr_is_largest_end_witness :
  reads 16 data_only_file (initial_state (repeat 0 16)) [data_record_at_11]
    end_of_stream state_after_data_line /\
  highest_addr (initial_state (repeat 0 16))
  <= highest_addr state_after_data_line.
Proof.
  assert (H : reads 16 data_only_file (initial_state (repeat 0 16))
                [data_record_at_11] end_of_stream state_after_data_line).
  { eapply reads_cons with (cs := 71); try reflexivity. apply reads_nil. }
  split; [exact H|].
  exact (proj1 (proj2 (highest_addr_is_largest_end _ _ _ _ _ _ H))).
Defined.

(** C5 as stated fails on an empty data record: the line [:00010000FF]
    stores nothing, yet [highest_addr] becomes 256 and is reported as the
    used length. *)
Lemma empty_record_raises_highest_addr :
  reads 1000 empty_record_file (initial_state (repeat 0 1000))
    [empty_record_at_256; terminator_record]
    end_of_stream state_after_empty_record /\
  highest_addr state_after_empty_record = 256 /\
  highest_written [empty_record_at_256; terminator_record] = 0 /\
  highest_addr state_after_empty_record
  <> highest_written [empty_record_at_256; terminator_record] /\
  load_ihex_buffer empty_record_file (repeat 0 1000) 1000
  = Some (Returned None (repeat 0 1000) 256).
Proof.
  split.
  - eapply reads_cons with (cs := 1); try reflexivity.
    eapply reads_cons with (cs := 1); try reflexivity.
    apply reads_nil.
  - split; [reflexivity|]. split; [reflexivity|].
    split; [discriminate|]. vm_compute. reflexivity.
Qed.

(** ** Where the code departs from the format *)

(** C3.  The reader takes lines whose fields are not made of hexadecimal
    digits: a conversion [%2x] succeeds as soon as one digit is found, and
    allows white space, a sign and a [0x] prefix.  The line [:000000000G]
    is read as the record of [:0000000000] and a file holding it loads. *)
Theorem reader_accepts_non_hex_characters :
  isxdigit "G" = false /\
  read_record_from_line (chars ":000000000G") = inr (empty_data_record, 0) /\
  read_record_from_line (chars ":0000000000") = inr (empty_data_record, 0) /\
  read_record_from_line (chars ":010000001GFE")
  = inr ({| size := 1; addr := 0; type := 0; data := [1];
            checksum := 254 |}, 2) /\
  read_record_from_line (chars ":-000000000") = inr (empty_data_record, 0) /\
  read_record_from_line (chars ":000x1F00E1")
  = inr ({| size := 0; addr := 31; type := 0; data := [];
            checksum := 225 |}, 31) /\
  read_record_from_line (chars ": 0 0 0  00") = inr (empty_data_record, 0) /\
  load_ihex_buffer (file_of (":000000000G" ++ nl ++ ":00000001FF" ++ nl))
    (repeat 0 16) 16
  = Some (Returned None (repeat 0 16) 0).
Proof. repeat split; vm_compute; reflexivity. Qed.

(** C8.  The record [:FF000000 00..00 01] is well formed: the reader
    parses it, its check sum is right and its 255 bytes fit the buffer of
    [main].  Its line has 521 characters, [fgets] hands over the first 520
    only, and the load of this record followed by the last record fails
    with "Invalid line length".  The bare last record loads, with used
    length 0. *)
Theorem longest_record_is_refused :
  length full_record_line = 521%nat /\
  read_record_from_line full_record_line = inr (full_record, 255) /\
  validate_record full_record = true /\
  addr full_record + size full_record < IHEX_BUFFER_MAX_SZ /\
  load_ihex_buffer full_record_file ihex_buffer IHEX_BUFFER_MAX_SZ
  = Some (Returned (Some (Reader Invalid_line_length)) ihex_buffer
            IHEX_BUFFER_MAX_SZ) /\
  load_ihex_buffer (file_of (":00000001FF" ++ nl)) ihex_buffer
    IHEX_BUFFER_MAX_SZ
  = Some (Returned None ihex_buffer 0).
Proof. repeat split; vm_compute; reflexivity. Qed.

(** C9.  An error of the reader is returned as the reader's string, which
    holds no line number, on the first line as on a later one. *)
Theorem reader_error_has_no_line_number :
  load_ihex_buffer short_line_file (repeat 0 16) 16
  = Some (Returned (Some (Reader Invalid_line_length)) (repeat 0 16) 16) /\
  load_ihex_buffer short_second_line_file (repeat 0 16) 16
  = Some (Returned (Some (Reader Invalid_line_length))
            (buffer state_after_data_line) 16) /\
  message (Reader Invalid_line_length) = "Invalid line length"%string /\
  error_line (Reader Invalid_line_length) = None.
Proof. repeat split; vm_compute; reflexivity. Qed.



(** ** Loads that succeed *)

(** A file whose lines are all read, validated and dispatched, the last
    record having set the flag, and which then ends, loads: the function
    returns a null pointer and [*buffer_sz] is the largest end address of
    the data records. *)
Lemma well_formed_load_succeeds buffer_sz f buffer0 rs f' st' :
  buffer_sz <> 0 ->
  reads buffer_sz f (initial_state buffer0) rs f' st' ->
  last_record_read st' = true ->
  fgets IHEX_LINE_MAX_SZ f' = Fgets_eof ->
  load_ihex_buffer f buffer0 buffer_sz
  = Some (Returned None (buffer st') (max_end rs)).
Proof.
  intros Hsz Hreads Hflag Heof.
  rewrite load_ihex_buffer_run by exact Hsz.
  rewrite (run_iterates _ _ _ _ _ (reads_iterates _ _ _ _ _ _ Hreads)).
  apply run_exit. unfold loop_body. rewrite Heof. simpl. rewrite Hflag.
  rewrite (reads_highest_addr _ _ _ _ _ _ Hreads) by (simpl; lia).
  pose proof (max_end_nonneg _ (reads_wf _ _ _ _ _ _ Hreads)).
  simpl. do 2 f_equal. lia.
Qed.

(** A line of fewer than 520 characters followed by a new line is what
    [fgets] delivers, and the stream goes on behind it. *)
Lemma fgets_chars_line n : forall l rest,
  Forall (fun c => is_char c LF = false) l ->
  (length l < n)%nat ->
  fgets_chars n (l ++ LF :: rest) = (l ++ [LF], rest).
Proof.
  induction n as [|n IH]; intros l rest Hl Hlen; [lia|].
  destruct l as [|c l]; simpl; [reflexivity|].
  apply Forall_cons_1 in Hl as [Hc Hl]. rewrite Hc.
  rewrite IH by (simpl in Hlen; auto; lia). reflexivity.
Qed.

Lemma fgets_line l rest e :
  Forall (fun c => is_char c LF = false) l ->
  (length l + 1 < IHEX_LINE_MAX_SZ)%nat ->
  fgets IHEX_LINE_MAX_SZ {| contents := l ++ LF :: rest; at_end := e |}
  = Fgets_line (l ++ [LF]) {| contents := rest; at_end := e |}.
Proof.
  intros Hl Hlen. unfold fgets, IHEX_LINE_MAX_SZ in *. simpl contents.
  rewrite fgets_chars_line by (auto; lia). simpl at_end.
  assert (Hlast : ends_with_LF (l ++ [LF]) = true).
  { unfold ends_with_LF. rewrite last_snoc. reflexivity. }
  rewrite Hlast. simpl negb. simpl andb.
  destruct e.
  - destruct (l ++ [LF]) eqn:Happ; [|reflexivity].
    destruct l; discriminate.
  - destruct rest; reflexivity.
Qed.

(** The reader does not see the end of line. *)
Lemma strip_eol_app_eol line c :
  is_eol c = true -> strip_eol (line ++ [c]) = strip_eol line.
Proof.
  intros Hc. induction line as [|x t IH]; simpl.
  - rewrite Hc. reflexivity.
  - rewrite IH. reflexivity.
Qed.

Lemma c_str_app l s :
  Forall (fun c => is_char c NUL = false) l ->
  c_str (l ++ s) = l ++ c_str s.
Proof.
  induction 1 as [|c l Hc _ IH]; simpl; [reflexivity|].
  rewrite Hc, IH. reflexivity.
Qed.

Lemma c_str_no_NUL l :
  Forall (fun c => is_char c NUL = false) l -> c_str l = l.
Proof.
  intros Hl. rewrite <- (app_nil_r l) at 1.
  rewrite c_str_app by exact Hl. apply app_nil_r.
Qed.

Lemma read_record_from_line_LF line :
  Forall (fun c => is_char c NUL = false) line ->
  read_record_from_line (line ++ [LF]) = read_record_from_line line.
Proof.
  intros Hl.
  assert (H : strip_eol (c_str (line ++ [LF])) = strip_eol (c_str line)).
  { rewrite c_str_app, (c_str_no_NUL line) by exact Hl.
    apply strip_eol_app_eol. reflexivity. }
  unfold read_record_from_line. rewrite H. reflexivity.
Qed.

Lemma read_record_from_line_CRLF line :
  Forall (fun c => is_char c NUL = false) line ->
  read_record_from_line (line ++ [CR; LF]) = read_record_from_line line.
Proof.
  intros Hl.
  assert (H : strip_eol (c_str (line ++ [CR; LF])) = strip_eol (c_str line)).
  { rewrite c_str_app, (c_str_no_NUL line) by exact Hl.
    change (c_str [CR; LF]) with ([CR] ++ [LF]).
    rewrite app_assoc, !strip_eol_app_eol by reflexivity. reflexivity. }
  unfold read_record_from_line. rewrite H. reflexivity.
Qed.

(** For an empty record the accepted check sum byte is the two's
    complement of the sum of the header bytes. *)
Lemma empty_record_check_sum buf r cs :
  (length buf < IHEX_LINE_MAX_SZ)%nat ->
  read_record_from_line buf = inr (r, cs) ->
  size r = 0 ->
  (validate_record r = true
   <-> checksum r = (- (size r + addr r / 256 + addr r mod 256 + type r))
                    mod 256).
Proof.
  intros Hbuf Hread Hsize.
  destruct (read_record_inv _ _ _ Hbuf Hread)
    as (_ & _ & _ & Hck & Hlen & _).
  rewrite (validate_record_sum r Hlen), Z.eqb_eq. unfold record_sum.
  rewrite Hsize in Hlen. destruct (data r); [|discriminate].
  unfold is_byte in Hck. simpl total.
  generalize (size r + addr r / 256 + addr r mod 256 + type r). intros h.
  split; intros H; Z.to_euclidean_division_equations; lia.
Qed.

(** The first two checks of the reader. *)
Lemma reader_refuses_short_line buf :
  (length (strip_eol (c_str buf)) < 11)%nat ->
  read_record_from_line buf = inl Invalid_line_length.
Proof.
  intros H. unfold read_record_from_line.
  destruct (Z.of_nat (length (strip_eol (c_str buf))) <? 11) eqn:Hlt;
    [reflexivity|].
  apply Z.ltb_ge in Hlt. lia.
Qed.

Lemma reader_refuses_start_code buf c line :
  strip_eol (c_str buf) = c :: line ->
  (11 <= length (c :: line))%nat ->
  is_char c ":" = false ->
  read_record_from_line buf = inl Invalid_start_code.
Proof.
  intros Hline Hlen Hc. unfold read_record_from_line. rewrite Hline.
  destruct (Z.of_nat (length (c :: line)) <? 11) eqn:Hlt;
    [apply Z.ltb_lt in Hlt; lia|].
  rewrite Hc. reflexivity.
Qed.

(** ** Lines made of hexadecimal digits *)

Lemma isxdigit_code c :
  isxdigit c = true ->
  48 <= code c <= 57 \/ 97 <= code c <= 102 \/ 65 <= code c <= 70.
Proof.
  unfold isxdigit, xdigit. intros H.
  destruct ((48 <=? code c) && (code c <=? 57)) eqn:E1;
    [|destruct ((97 <=? code c) && (code c <=? 102)) eqn:E2;
      [|destruct ((65 <=? code c) && (code c <=? 70)) eqn:E3;
        [|discriminate]]];
    match goal with
    | E : (_ && _) = true |- _ =>
        apply andb_true_iff in E as [?%Z.leb_le ?%Z.leb_le]
    end; lia.
Qed.

Lemma xdigit_not_special c d :
  isxdigit c = true ->
  code d < 48 \/ 57 < code d < 65 \/ 70 < code d < 97 \/ 102 < code d ->
  is_char c d = false.
Proof.
  intros Hc Hd. apply isxdigit_code in Hc.
  unfold is_char. apply Z.eqb_neq. lia.
Qed.

Lemma xdigit_not_space c : isxdigit c = true -> isspace c = false.
Proof.
  intros Hc. apply isxdigit_code in Hc. unfold isspace.
  apply orb_false_iff. split; [apply Z.eqb_neq; lia|].
  apply andb_false_iff. right. apply Z.leb_gt. lia.
Qed.

Lemma hex_value_fold ds : forall acc,
  0 <= acc ->
  0 <= fold_left (fun a c => a * 16 + default 0 (xdigit c)) ds acc.
Proof.
  induction ds as [|c ds IH]; intros acc Hacc; simpl; [exact Hacc|].
  apply IH. destruct (xdigit c) as [d|] eqn:Hd; simpl; [|lia].
  apply xdigit_range in Hd. lia.
Qed.

Lemma hex_value_nonneg ds : 0 <= hex_value ds.
Proof. apply hex_value_fold. lia. Qed.

Lemma scan_xdigits_all w : forall s acc n,
  (w <= length s)%nat ->
  all_xdigits (take w s) ->
  scan_xdigits w s acc n
  = (fold_left (fun a c => a * 16 + default 0 (xdigit c)) (take w s) acc,
     (n + w)%nat, drop w s).
Proof.
  induction w as [|w IH]; intros s acc n Hlen Hall.
  - rewrite Nat.add_0_r. destruct s; reflexivity.
  - destruct s as [|c s]; [simpl in Hlen; lia|].
    simpl in Hall. apply Forall_cons_1 in Hall as [Hc Hall].
    simpl. unfold isxdigit in Hc.
    destruct (xdigit c) as [d|]; [|discriminate].
    rewrite IH by (simpl in Hlen; auto; lia).
    simpl. do 2 f_equal. lia.
Qed.

(** On digits a conversion of width [w] reads exactly [w] characters. *)
Lemma scan_x_xdigits w s :
  (0 < w <= length s)%nat ->
  all_xdigits (take w s) ->
  scan_x w s = Some (hex_value (take w s), drop w s).
Proof.
  intros [Hw Hlen] Hall. unfold scan_x.
  destruct s as [|c1 s]; [simpl in Hlen; lia|].
  destruct w as [|w]; [lia|].
  pose proof Hall as Hall'. simpl in Hall'.
  apply Forall_cons_1 in Hall' as [Hc1 Hrest].
  simpl skip_space. rewrite (xdigit_not_space c1 Hc1).
  unfold scan_sign.
  rewrite !(xdigit_not_special c1) by (auto; unfold code; simpl; lia).
  assert (Hp : scan_prefix (S w) (c1 :: s) = (S w, c1 :: s)).
  { unfold scan_prefix. destruct w as [|w]; [reflexivity|].
    destruct s as [|c2 t]; [reflexivity|].
    simpl in Hrest. apply Forall_cons_1 in Hrest as [Hc2 _].
    rewrite !(xdigit_not_special c2) by (auto; unfold code; simpl; lia).
    rewrite andb_false_r. reflexivity. }
  rewrite Hp, scan_xdigits_all by (auto; lia).
  reflexivity.
Qed.

Lemma all_xdigits_field body pos w :
  all_xdigits body -> all_xdigits (take w (drop pos body)).
Proof.
  intros H. apply Forall_take, Forall_drop, H.
Qed.

Lemma sscanf_2x_field body pos :
  all_xdigits body ->
  (pos + 2 <= length body)%nat ->
  sscanf_2x (drop pos body) = Some (field body pos 2).
Proof.
  intros Hall Hlen. unfold sscanf_2x.
  rewrite scan_x_xdigits.
  - reflexivity.
  - rewrite length_drop. lia.
  - apply all_xdigits_field, Hall.
Qed.

Lemma field_range body pos w :
  all_xdigits body ->
  (0 < w)%nat -> (pos + w <= length body)%nat ->
  0 <= field body pos w < 16 ^ Z.of_nat w.
Proof.
  intros Hall Hw Hlen. split; [apply hex_value_nonneg|].
  assert (H : scan_x w (drop pos body)
              = Some (field body pos w, drop w (drop pos body))).
  { apply scan_x_xdigits; [rewrite length_drop; lia|].
    apply all_xdigits_field, Hall. }
  apply scan_x_bound in H. lia.
Qed.

Lemma read_data_digits c body : forall k i cs,
  all_xdigits body ->
  (8 + 2 * (i + k) + 2 <= length body)%nat ->
  exists cs',
    read_data (c :: body) i k cs
    = Some (map (fun j => field body (8 + 2 * j) 2) (seq i k), cs').
Proof.
  induction k as [|k IH]; intros i cs Hall Hlen; simpl.
  - eauto.
  - change (S (S (S (S (S (S (S (S (i + (i + 0))))))))))%nat
      with (8 + 2 * i)%nat.
    rewrite sscanf_2x_field by (auto; lia).
    destruct (IH (S i) (ui8 (cs + ui8 (field body (8 + 2 * i) 2))) Hall)
      as [cs' Hrec]; [lia|].
    rewrite Hrec. eexists. do 2 f_equal.
    rewrite ui8_small; [reflexivity|].
    apply (field_range body (8 + 2 * i) 2); auto; lia.
Qed.

Lemma strip_eol_id line :
  Forall (fun c => is_eol c = false) line -> strip_eol line = line.
Proof.
  induction 1 as [|c t Hc _ IH]; simpl; [reflexivity|].
  rewrite IH, Hc. destruct t; reflexivity.
Qed.

(** The reader on a line in the strict format: a colon and hexadecimal
    digits only, two for the size, four for the address, two for the type,
    two for each of the [n] data bytes the size announces and two for the
    check sum.  The record holds the fields as written. *)
Lemma read_record_of_digits body n :
  all_xdigits body ->
  length body = (10 + 2 * n)%nat ->
  field body 0 2 = Z.of_nat n ->
  exists cs,
    read_record_from_line (":"%char :: body)
    = inr (record_of_digits body n, cs).
Proof.
  intros Hall Hlen Hsize.
  assert (Hn : Z.of_nat n < 256).
  { rewrite <- Hsize. apply (field_range body 0 2); auto; lia. }
  assert (Hline : strip_eol (c_str (":"%char :: body)) = ":"%char :: body).
  { assert (Hno : forall d, code d < 48 ->
              Forall (fun c => is_char c d = false) (":"%char :: body)).
    { intros d Hd. constructor;
        [apply Z.eqb_neq; change (code ":"%char) with 58; lia|].
      eapply Forall_impl; [exact Hall|]. intros c Hc.
      apply xdigit_not_special; auto. }
    rewrite c_str_no_NUL by (apply Hno; reflexivity).
    apply strip_eol_id.
    pose proof (Hno LF ltac:(reflexivity)) as H1.
    pose proof (Hno CR ltac:(reflexivity)) as H2.
    rewrite Forall_forall in H1, H2. apply Forall_forall.
    intros c Hc. unfold is_eol. rewrite (H1 c Hc), (H2 c Hc). reflexivity. }
  unfold read_record_from_line. rewrite Hline.
  assert (HL : Z.of_nat (length (":"%char :: body)) = 11 + 2 * Z.of_nat n)
    by (simpl length; lia).
  rewrite HL.
  destruct (11 + 2 * Z.of_nat n <? 11) eqn:Hshort;
    [apply Z.ltb_lt in Hshort; lia|].
  change (is_char ":" ":") with true. cbn [negb].
  unfold sscanf_2x4x2x.
  rewrite scan_x_xdigits
    by (try apply (all_xdigits_field body 0); auto; lia).
  rewrite scan_x_xdigits
    by (rewrite ?length_drop;
        try apply (all_xdigits_field body 2); auto; lia).
  rewrite scan_x_xdigits
    by (rewrite ?length_drop;
        try apply (all_xdigits_field (drop 2 body) 4);
        try apply Forall_drop; auto; lia).
  change (hex_value (take 2 body)) with (field body 0 2).
  change (hex_value (take 4 (drop 2 body))) with (field body 2 4).
  rewrite drop_drop. change (2 + 4)%nat with 6%nat.
  change (hex_value (take 2 (drop 6 body))) with (field body 6 2).
  rewrite Hsize.
  rewrite (to_size_t_small (11 + 2 * Z.of_nat n)) by lia.
  rewrite Z.eqb_refl. cbn [negb].
  rewrite (to_size_t_small (Z.of_nat n)) by lia.
  rewrite Nat2Z.id.
  match goal with
  | |- context [read_data _ 0 n ?c] =>
      destruct (read_data_digits ":"%char body n 0 c Hall) as [cs Hdata];
        [lia|rewrite Hdata]
  end.
  replace (Z.to_nat (9 + 2 * Z.of_nat n)) with (S (8 + 2 * n)) by lia.
  change (drop (S (8 + 2 * n)) (":"%char :: body))
    with (drop (8 + 2 * n) body).
  rewrite sscanf_2x_field by (auto; lia).
  exists cs. unfold record_of_digits. rewrite Hsize.
  rewrite (ui8_small (Z.of_nat n)) by lia.
  rewrite (ui8_small (field body 6 2))
    by (apply (field_range body 6 2); auto; lia).
  rewrite (ui8_small (field body (8 + 2 * n) 2))
    by (apply (field_range body (8 + 2 * n) 2); auto; lia).
  unfold ui16. rewrite Z.mod_small
    by (apply (field_range body 2 4); auto; lia).
  reflexivity.
Qed.

(** * Further properties of the code *)

(** ** The reader *)

(** The facts of [read_record_inv] hold of any line a [size_t] can
    measure, the 521 characters of the longest record included. *)
Lemma read_record_inv_wide buf r cs :
  Z.of_nat (length buf) < 2 ^ 63 ->
  read_record_from_line buf = inr (r, cs) ->
  is_byte (size r) /\ 0 <= addr r < 65536 /\ is_byte (type r) /\
  is_byte (checksum r) /\
  length (data r) = Z.to_nat (size r) /\ Forall is_byte (data r) /\
  Z.of_nat (length (strip_eol (c_str buf))) = 11 + 2 * size r /\
  cs = ui8 (size r + Z.shiftr (addr r) 8 + ui8 (addr r) + type r
            + total (data r)).
Proof.
  intros Hbuf. unfold read_record_from_line.
  pose proof (length_c_str buf) as H1.
  pose proof (length_strip_eol (c_str buf)) as H2.
  set (line := strip_eol (c_str buf)) in *.
  destruct (Z.of_nat (length line) <? 11) eqn:Hlen; [discriminate|].
  apply Z.ltb_ge in Hlen.
  destruct line as [|c line1] eqn:Hline; [discriminate|].
  destruct (negb (is_char c ":")); [discriminate|].
  unfold sscanf_2x4x2x.
  destruct (scan_x 2 line1) as [[sz s1]|] eqn:Hsz; [|discriminate].
  destruct (scan_x 4 s1) as [[ad s2]|] eqn:Had; [|discriminate].
  destruct (scan_x 2 s2) as [[ty s3]|] eqn:Hty; [|discriminate].
  destruct (negb _) eqn:Hmatch; [discriminate|].
  apply negb_false_iff, Z.eqb_eq in Hmatch.
  apply scan_x_bound in Hsz. change (16 ^ Z.of_nat 2) with 256 in Hsz.
  assert (Hsize : 11 + 2 * sz = Z.of_nat (length (c :: line1))).
  { rewrite Hmatch. unfold to_size_t.
    destruct (Z_lt_le_dec (11 + 2 * sz) 0) as [Hneg|Hpos].
    - exfalso. unfold to_size_t in Hmatch.
      replace (11 + 2 * sz) with ((11 + 2 * sz + 2 ^ 64) + (-1) * 2 ^ 64)
        in Hmatch by lia.
      rewrite Z_mod_plus_full, Z.mod_small in Hmatch by lia. lia.
    - rewrite Z.mod_small by lia. reflexivity. }
  assert (Hsz8 : 0 <= sz < 256) by lia.
  rewrite (to_size_t_small sz) by lia.
  destruct (read_data _ _ _ _) as [[ds cs0]|] eqn:Hdata; [|discriminate].
  destruct (sscanf_2x _) as [ck|]; [|discriminate].
  intros Heq. simplify_eq. simpl.
  apply read_data_spec in Hdata as (Hlen' & Hall & ->); [|apply ui8_range].
  rewrite (ui8_small sz) by lia.
  repeat split; try apply ui8_range; try apply ui16_range; try lia; auto.
  rewrite shiftr_ui16, ui8_ui16.
  generalize (ui8 (Z.shiftr ad 8)) (ui8 ad) (ui8 ty) (total ds).
  intros. unfold ui8. Z.to_euclidean_division_equations. lia.
Qed.

(** X1.  A record the reader returns fits the C structure: size, type and
    check sum are bytes, the address has 16 bits, there are exactly [size]
    data bytes, each a byte and at most 255 of them, so that the stores to
    [record->data] stay inside its 256 elements; and the line, line end
    removed, has exactly [11 + 2*size] characters. *)
Theorem parsed_record_fits_the_structure buf r cs :
  Z.of_nat (length buf) < 2 ^ 63 ->
  read_record_from_line buf = inr (r, cs) ->
  0 <= size r <= 255 /\ 0 <= addr r <= 65535 /\ 0 <= type r <= 255 /\
  0 <= checksum r <= 255 /\
  Z.of_nat (length (data r)) = size r /\
  (length (data r) < 256)%nat /\
  Forall (fun b => 0 <= b <= 255) (data r) /\
  Z.of_nat (length (strip_eol (c_str buf))) = 11 + 2 * size r /\
  is_byte cs.
Proof.
  intros Hbuf Hread.
  destruct (read_record_inv_wide _ _ _ Hbuf Hread)
    as (Hs & Ha & Ht & Hc & Hlen & Hall & Hline & ->).
  unfold is_byte in *.
  repeat split; try lia; try apply ui8_range.
  eapply Forall_impl; [exact Hall|]. simpl. intros; lia.
Qed.

Lemma parsed_record_fits_the_structure_witness :
  Z.of_nat (length data_line_at_11) < 2 ^ 63 /\
  read_record_from_line data_line_at_11 = inr (data_record_at_11, 71) /\
  0 <= size data_record_at_11 <= 255.
Proof.
  assert (Hlen : Z.of_nat (length data_line_at_11) < 2 ^ 63)
    by (vm_compute; reflexivity).
  assert (Hread : read_record_from_line data_line_at_11
                  = inr (data_record_at_11, 71)) by reflexivity.
  split; [exact Hlen|]. split; [exact Hread|].
  exact (proj1 (parsed_record_fits_the_structure _ _ _ Hlen Hread)).
Defined.

Lemma strip_eol_all_eol eols :
  Forall (fun c => is_eol c = true) eols -> strip_eol eols = [].
Proof.
  induction 1 as [|c t Hc _ IH]; simpl; [reflexivity|].
  rewrite IH, Hc. reflexivity.
Qed.

Lemma c_str_eols eols :
  Forall (fun c => is_eol c = true) eols -> c_str eols = eols.
Proof.
  induction 1 as [|c t Hc _ IH]; simpl; [reflexivity|].
  rewrite IH.
  assert (Hn : is_char c NUL = false).
  { unfold is_eol, is_char in *. apply Z.eqb_neq.
    apply orb_true_iff in Hc as [Hc|Hc]; apply Z.eqb_eq in Hc;
      rewrite Hc; discriminate. }
  rewrite Hn. reflexivity.
Qed.

Lemma strip_eol_c_str_app buf eols :
  Forall (fun c => is_eol c = true) eols ->
  strip_eol (c_str (buf ++ eols)) = strip_eol (c_str buf).
Proof.
  intros Heols. induction buf as [|c t IH]; simpl.
  - rewrite c_str_eols by exact Heols. apply strip_eol_all_eol, Heols.
  - destruct (is_char c NUL); [reflexivity|].
    simpl. rewrite IH. reflexivity.
Qed.

(** X2.  The reader does not see the line end: any run of carriage returns
    and new lines behind a line, none or several, in any order, leaves the
    result as it is. *)
Theorem reader_ignores_the_line_end buf eols :
  Forall (fun c => is_eol c = true) eols ->
  read_record_from_line (buf ++ eols) = read_record_from_line buf.
Proof.
  intros Heols. unfold read_record_from_line.
  rewrite (strip_eol_c_str_app buf eols Heols). reflexivity.
Qed.

Lemma reader_ignores_the_line_end_witness :
  Forall (fun c => is_eol c = true) [CR; CR; LF; CR] /\
  read_record_from_line (data_line_at_11 ++ [CR; CR; LF; CR])
  = read_record_from_line data_line_at_11.
Proof.
  assert (H : Forall (fun c => is_eol c = true) [CR; CR; LF; CR])
    by (repeat constructor).
  split; [exact H|].
  exact (reader_ignores_the_line_end data_line_at_11 _ H).
Defined.

(** X3.  On a line in the strict format, a colon followed by hexadecimal
    digits only, two for the size, four for the address, two for the type,
    two for each data byte and two for the check sum, with as many data
    bytes as the size says, the reader returns the record with the fields
    as written, and the running check sum is the sum of all bytes but the
    last, modulo 256. *)
Theorem strict_line_is_read_as_written body n :
  all_xdigits body ->
  length body = (10 + 2 * n)%nat ->
  field body 0 2 = Z.of_nat n ->
  read_record_from_line (":"%char :: body)
  = inr (record_of_digits body n,
         (Z.of_nat n + field body 2 4 / 256 + field body 2 4 mod 256
          + field body 6 2 + total (data (record_of_digits body n)))
         mod 256).
Proof.
  intros Hall Hlen Hsize.
  destruct (read_record_of_digits body n Hall Hlen Hsize) as [cs Hread].
  rewrite Hread. do 2 f_equal.
  assert (Hn : Z.of_nat n < 256).
  { rewrite <- Hsize. apply (field_range body 0 2); auto; lia. }
  assert (Hbuf : Z.of_nat (length (":"%char :: body)) < 2 ^ 63)
    by (simpl length; lia).
  destruct (read_record_inv_wide _ _ _ Hbuf Hread)
    as (_ & _ & _ & _ & _ & _ & _ & ->).
  simpl size. simpl addr. simpl type. rewrite Hsize.
  rewrite Z.shiftr_div_pow2 by lia. change (2 ^ 8) with 256.
  change (ui8 (field body 2 4)) with (field body 2 4 mod 256).
  reflexivity.
Qed.

Lemma strict_line_is_read_as_written_witness :
  all_xdigits data_body_at_11 /\
  length data_body_at_11 = (10 + 2 * 4)%nat /\
  field data_body_at_11 0 2 = Z.of_nat 4 /\
  read_record_from_line (":"%char :: data_body_at_11)
  = inr (data_record_at_11, 71).
Proof.
  assert (Hall : all_xdigits data_body_at_11) by (repeat constructor).
  assert (Hlen : length data_body_at_11 = (10 + 2 * 4)%nat) by reflexivity.
  assert (Hsize : field data_body_at_11 0 2 = Z.of_nat 4) by reflexivity.
  split; [exact Hall|]. split; [exact Hlen|]. split; [exact Hsize|].
  exact (strict_line_is_read_as_written data_body_at_11 4 Hall Hlen Hsize).
Defined.

(** ** The check sum *)

Lemma total_insert (l : list Z) i b b' :
  l !! i = Some b -> total (<[i := b']> l) = total l - b + b'.
Proof.
  revert i. induction l as [|x t IH]; intros i Hi; [discriminate|].
  destruct i as [|i]; simpl in *.
  - simplify_eq. lia.
  - rewrite (IH i Hi). lia.
Qed.

(** X4.  For given size, address, type and data exactly one check sum byte
    is accepted: the two's complement of the sum of the other bytes. *)
Theorem one_check_sum_byte_validates r :
  length (data r) = Z.to_nat (size r) ->
  0 <= checksum r <= 255 ->
  (validate_record r = true <-> checksum r = expected_checksum r).
Proof.
  intros Hlen Hck. rewrite (validate_record_sum r Hlen), Z.eqb_eq.
  unfold record_sum, expected_checksum.
  generalize (size r + addr r / 256 + addr r mod 256 + type r
              + total (data r)).
  intros s. split; intros H; Z.to_euclidean_division_equations; lia.
Qed.

Lemma one_check_sum_byte_validates_witness :
  length (data data_record_at_11) = Z.to_nat (size data_record_at_11) /\
  0 <= checksum data_record_at_11 <= 255 /\
  (validate_record data_record_at_11 = true
   <-> checksum data_record_at_11 = expected_checksum data_record_at_11).
Proof.
  assert (Hlen : length (data data_record_at_11)
                 = Z.to_nat (size data_record_at_11)) by reflexivity.
  assert (Hck : 0 <= checksum data_record_at_11 <= 255) by (simpl; lia).
  split; [exact Hlen|]. split; [exact Hck|].
  exact (one_check_sum_byte_validates data_record_at_11 Hlen Hck).
Defined.

(** X5.  The check sum detects any change of one data byte: when a record
    is accepted, the record with one of its data bytes replaced by a
    different byte is refused. *)
Theorem changed_data_byte_is_refused r i b b' :
  length (data r) = Z.to_nat (size r) ->
  validate_record r = true ->
  data r !! i = Some b ->
  0 <= b <= 255 -> 0 <= b' <= 255 -> b <> b' ->
  validate_record (with_data_byte r i b') = false.
Proof.
  intros Hlen Hvalid Hi Hb Hb' Hne.
  rewrite (validate_record_sum r Hlen) in Hvalid.
  apply Z.eqb_eq in Hvalid.
  rewrite validate_record_sum
    by (unfold with_data_byte; simpl; rewrite length_insert; exact Hlen).
  apply Z.eqb_neq. unfold record_sum in *. unfold with_data_byte. simpl.
  rewrite (total_insert _ _ _ _ Hi).
  revert Hvalid.
  generalize (size r + addr r / 256 + addr r mod 256 + type r) (total (data r))
    (checksum r).
  intros h t c Hvalid. Z.to_euclidean_division_equations. lia.
Qed.

Lemma changed_data_byte_is_refused_witness :
  length (data data_record_at_11) = Z.to_nat (size data_record_at_11) /\
  validate_record data_record_at_11 = true /\
  data data_record_at_11 !! 1%nat = Some 173 /\
  0 <= 173 <= 255 /\ 0 <= 172 <= 255 /\ 173 <> 172 /\
  validate_record (with_data_byte data_record_at_11 1 172) = false.
Proof.
  assert (Hlen : length (data data_record_at_11)
                 = Z.to_nat (size data_record_at_11)) by reflexivity.
  assert (Hv : validate_record data_record_at_11 = true) by reflexivity.
  assert (Hi : data data_record_at_11 !! 1%nat = Some 173) by reflexivity.
  assert (Hb : 0 <= 173 <= 255) by lia.
  assert (Hb' : 0 <= 172 <= 255) by lia.
  assert (Hne : 173 <> 172) by lia.
  repeat (split; [assumption|]).
  exact (changed_data_byte_is_refused _ _ _ _ Hlen Hv Hi Hb Hb' Hne).
Defined.

(** ** The loop *)

Lemma process_line_return buffer_sz line st e st' :
  process_line buffer_sz line st = Return e st' -> st' = st.
Proof.
  unfold process_line, process_record. intros H.
  repeat case_match; simplify_eq; reflexivity.
Qed.

Lemma loop_body_exit_buffer buffer_sz f st ret buffer' buffer_sz' :
  loop_body buffer_sz f st = Exit (Returned ret buffer' buffer_sz') ->
  buffer' = buffer st.
Proof.
  unfold loop_body. intros H.
  destruct (fgets IHEX_LINE_MAX_SZ f) as [line rest| |msg]; simpl in H.
  - destruct (last_record_read st); [simplify_eq; reflexivity|].
    destruct (process_line _ _ _) as [|e st'] eqn:Hline; simplify_eq.
    apply process_line_return in Hline. subst st'. reflexivity.
  - destruct (last_record_read st); simplify_eq; reflexivity.
  - simplify_eq. reflexivity.
Qed.

Lemma loop_body_not_aborted buffer_sz f st :
  loop_body buffer_sz f st <> Exit Aborted.
Proof.
  unfold loop_body. repeat case_match; discriminate.
Qed.

(** The loop leaves through the exit of some iteration. *)
Lemma load_loop_exit buffer_sz : forall fuel f st o,
  load_loop fuel buffer_sz f st = Some o ->
  exists f' st',
    iterates buffer_sz f st f' st' /\ loop_body buffer_sz f' st' = Exit o.
Proof.
  induction fuel as [|fuel IH]; intros f st o H; [discriminate|].
  simpl in H. destruct (loop_body buffer_sz f st) as [f1 st1|o1] eqn:Hbody.
  - destruct (IH _ _ _ H) as (f' & st' & Hiter & Hexit).
    exists f', st'. split; [|exact Hexit].
    eapply iterates_step; eauto.
  - simplify_eq. exists f, st. split; [apply iterates_refl|exact Hbody].
Qed.

Lemma load_exit f buffer0 buffer_sz ret buffer' buffer_sz' :
  load_ihex_buffer f buffer0 buffer_sz
  = Some (Returned ret buffer' buffer_sz') ->
  exists rs f' st',
    reads buffer_sz f (initial_state buffer0) rs f' st' /\
    loop_body buffer_sz f' st' = Exit (Returned ret buffer' buffer_sz') /\
    buffer' = buffer st'.
Proof.
  unfold load_ihex_buffer. destruct (buffer_sz =? 0); [discriminate|].
  intros H. apply load_loop_exit in H as (f' & st' & Hiter & Hexit).
  apply iterates_reads in Hiter as [rs Hreads].
  exists rs, f', st'. split; [exact Hreads|]. split; [exact Hexit|].
  eapply loop_body_exit_buffer, Hexit.
Qed.


(** X6.  The loop ends: it makes at most one iteration for each character
    of the file and one more, so [load_ihex_buffer] returns on every file,
    and giving the loop more iterations than that changes nothing. *)
Theorem load_ends_within_the_file f buffer0 buffer_sz fuel :
  buffer_sz <> 0 ->
  (length (contents f) < fuel)%nat ->
  (exists o, load_ihex_buffer f buffer0 buffer_sz = Some o) /\
  load_loop fuel buffer_sz f (initial_state buffer0)
  = load_ihex_buffer f buffer0 buffer_sz.
Proof.
  intros Hsz Hfuel.
  destruct (load_ihex_buffer_returns f buffer0 buffer_sz) as [o Ho].
  split; [eauto|]. rewrite Ho.
  rewrite load_ihex_buffer_run in Ho by exact Hsz.
  apply load_loop_more_fuel with (fuel := S (length (contents f)));
    [exact Ho|lia].
Qed.

Lemma load_ends_within_the_file_witness :
  16 <> 0 /\
  (length (contents small_image_file) < 100)%nat /\
  load_loop 100 16 small_image_file (initial_state (repeat 0 16))
  = load_ihex_buffer small_image_file (repeat 0 16) 16.
Proof.
  assert (Hsz : 16 <> 0) by lia.
  assert (Hfuel : (length (contents small_image_file) < 100)%nat)
    by (vm_compute; lia).
  split; [exact Hsz|]. split; [exact Hfuel|].
  exact (proj2 (load_ends_within_the_file small_image_file (repeat 0 16)
                  16 100 Hsz Hfuel)).
Defined.

Lemma load_success_inv f buffer0 buffer_sz buffer' buffer_sz' :
  buffer_sz <> 0 ->
  load_ihex_buffer f buffer0 buffer_sz
  = Some (Returned None buffer' buffer_sz') ->
  exists rs f' st',
    reads buffer_sz f (initial_state buffer0) rs f' st' /\
    last_record_read st' = true /\
    fgets IHEX_LINE_MAX_SZ f' = Fgets_eof /\
    buffer' = buffer st' /\ buffer_sz' = max_end rs.
Proof.
  intros Hsz.
  unfold load_ihex_buffer. apply Z.eqb_neq in Hsz. rewrite Hsz.
  intros H. apply load_loop_outcome in H.
  destruct H as (f' & st' & Hiter & Hflag & Heof & -> & ->).
  apply iterates_reads in Hiter as [rs Hreads].
  exists rs, f', st'. repeat split; auto.
  rewrite (reads_highest_addr _ _ _ _ _ _ Hreads) by (simpl; lia).
  pose proof (max_end_nonneg _ (reads_wf _ _ _ _ _ _ Hreads)).
  simpl. lia.
Qed.

(** X7.  [load_ihex_buffer] returns a null pointer exactly when every line
    up to the end of the file was read, validated and dispatched and the
    flag [last_record_read] is set when [fgets] reports the end of the
    file; the buffer is then the one the records left and [*buffer_sz] the
    largest end address of the data records. *)
Theorem load_succeeds_iff f buffer0 buffer_sz buffer' buffer_sz' :
  buffer_sz <> 0 ->
  (load_ihex_buffer f buffer0 buffer_sz
   = Some (Returned None buffer' buffer_sz')
   <->
   exists rs f' st',
     reads buffer_sz f (initial_state buffer0) rs f' st' /\
     last_record_read st' = true /\
     fgets IHEX_LINE_MAX_SZ f' = Fgets_eof /\
     buffer' = buffer st' /\ buffer_sz' = max_end rs).
Proof.
  intros Hsz. split.
  - apply load_success_inv, Hsz.
  - intros (rs & f' & st' & Hreads & Hflag & Heof & -> & ->).
    eapply well_formed_load_succeeds; eauto.
Qed.

Lemma load_succeeds_iff_witness :
  16 <> 0 /\
  (load_ihex_buffer small_image_file (repeat 0 16) 16
   = Some (Returned None (buffer state_after_small_image) 15)
   <->
   exists rs f' st',
     reads 16 small_image_file (initial_state (repeat 0 16)) rs f' st' /\
     last_record_read st' = true /\
     fgets IHEX_LINE_MAX_SZ f' = Fgets_eof /\
     buffer state_after_small_image = buffer st' /\ 15 = max_end rs).
Proof.
  assert (Hsz : 16 <> 0) by lia.
  split; [exact Hsz|].
  exact (load_succeeds_iff small_image_file (repeat 0 16) 16 _ 15 Hsz).
Defined.

Lemma reads_flag_set buffer_sz f st rs f' st' :
  reads buffer_sz f st rs f' st' ->
  last_record_read st = true -> rs = [] /\ st' = st.
Proof.
  destruct 1; [auto|congruence].
Qed.

Lemma reads_shape buffer_sz f st rs f' st' :
  reads buffer_sz f st rs f' st' ->
  last_record_read st = false ->
  if last_record_read st'
  then exists ds t, rs = ds ++ [t] /\
         Forall (fun r => type r = 0) ds /\ type t = 1
  else Forall (fun r => type r = 0) rs.
Proof.
  induction 1 as [|f st line rest r cs st1 rs f2 st2 _ _ _ _ Hrec Hrest IH];
    intros Hflag.
  - rewrite Hflag. constructor.
  - apply process_record_continue in Hrec as [_ Hrec]. simpl in Hrec.
    destruct Hrec as [(Ht & _ & _ & Hf & _)|(Ht & _ & Hf & _)].
    + rewrite Hflag in Hf. specialize (IH Hf).
      destruct (last_record_read st2).
      * destruct IH as (ds & t & -> & Hds & Htt).
        exists (r :: ds), t. repeat split; auto.
      * constructor; auto.
    + destruct (reads_flag_set _ _ _ _ _ _ Hrest Hf) as [-> ->].
      rewrite Hf. exists [], r. repeat split; auto.
Qed.

(** X8.  A load that returns a null pointer has read data records only,
    followed by exactly one record of type 1, the last line of the file;
    every data record ended below the capacity. *)
Theorem loaded_file_is_data_then_last_record
    f buffer0 buffer_sz buffer' buffer_sz' :
  load_ihex_buffer f buffer0 buffer_sz
  = Some (Returned None buffer' buffer_sz') ->
  exists ds t f' st',
    reads buffer_sz f (initial_state buffer0) (ds ++ [t]) f' st' /\
    fgets IHEX_LINE_MAX_SZ f' = Fgets_eof /\
    Forall (fun r => type r = 0 /\ addr r + size r < buffer_sz) ds /\
    type t = 1.
Proof.
  intros H.
  assert (Hsz : buffer_sz <> 0).
  { intros ->. unfold load_ihex_buffer in H. simpl in H. discriminate. }
  apply (load_success_inv _ _ _ _ _ Hsz) in H.
  destruct H as (rs & f' & st' & Hreads & Hflag & Heof & _).
  pose proof (reads_shape _ _ _ _ _ _ Hreads eq_refl) as Hshape.
  rewrite Hflag in Hshape. destruct Hshape as (ds & t & -> & Hds & Ht).
  exists ds, t, f', st'. repeat split; auto.
  clear Hflag Heof.
  remember (initial_state buffer0) as st0 eqn:E. clear E.
  revert f st0 Hreads.
  induction ds as [|d ds IH]; intros f st0 Hreads; [constructor|].
  apply Forall_cons_1 in Hds as [Hd Hds].
  inversion Hreads as [|? ? line rest ? cs st1 ? ? ? _ _ _ _ Hrec Hrest];
    subst.
  constructor; [|eapply IH; eauto].
  apply process_record_continue in Hrec as [_ Hrec].
  destruct Hrec as [(_ & Hin & _)|(Ht1 & _)]; [auto|congruence].
Qed.

Lemma loaded_file_is_data_then_last_record_witness :
  load_ihex_buffer small_image_file (repeat 0 16) 16
  = Some (Returned None (buffer state_after_small_image) 15) /\
  exists ds t f' st',
    reads 16 small_image_file (initial_state (repeat 0 16)) (ds ++ [t])
      f' st' /\
    fgets IHEX_LINE_MAX_SZ f' = Fgets_eof /\
    Forall (fun r => type r = 0 /\ addr r + size r < 16) ds /\
    type t = 1.
Proof.
  assert (H : load_ihex_buffer small_image_file (repeat 0 16) 16
    = Some (Returned None (buffer state_after_small_image) 15))
    by reflexivity.
  split; [exact H|].
  exact (loaded_file_is_data_then_last_record _ _ _ _ _ H).
Defined.



(** X10.  Whatever the outcome, the buffer is the caller's buffer with the
    data of the records read before the exit copied in, later records over
    earlier ones.  A load that fails on a later line leaves the data of
    the earlier lines in the buffer. *)
Theorem buffer_holds_the_records_read
    f buffer0 buffer_sz ret buffer' buffer_sz' :
  buffer_sz <= Z.of_nat (length buffer0) ->
  load_ihex_buffer f buffer0 buffer_sz
  = Some (Returned ret buffer' buffer_sz') ->
  exists rs f' st',
    reads buffer_sz f (initial_state buffer0) rs f' st' /\
    loop_body buffer_sz f' st' = Exit (Returned ret buffer' buffer_sz') /\
    length buffer' = length buffer0 /\
    forall j,
      buffer' !! j =
      match last_write rs j with
      | Some b => Some b
      | None => buffer0 !! j
      end.
Proof.
  intros Hcap H.
  apply load_exit in H as (rs & f' & st' & Hreads & Hexit & ->).
  exists rs, f', st'. split; [exact Hreads|]. split; [exact Hexit|].
  split; [apply (reads_length _ _ _ _ _ _ Hreads)|].
  apply (reads_last_write _ _ _ _ _ _ Hreads). exact Hcap.
Qed.

Lemma buffer_holds_the_records_read_witness :
  16 <= Z.of_nat (length (repeat 0 16)) /\
  load_ihex_buffer bad_second_line_file (repeat 0 16) 16
  = Some (Returned (Some (Invalid_record 2))
            [0; 0; 0; 0; 0; 0; 0; 0; 0; 0; 0; 222; 173; 190; 239; 0] 16) /\
  exists rs f' st',
    reads 16 bad_second_line_file (initial_state (repeat 0 16)) rs f' st' /\
    loop_body 16 f' st'
    = Exit (Returned (Some (Invalid_record 2))
              [0; 0; 0; 0; 0; 0; 0; 0; 0; 0; 0; 222; 173; 190; 239; 0] 16) /\
    length [0; 0; 0; 0; 0; 0; 0; 0; 0; 0; 0; 222; 173; 190; 239; 0]
    = length (repeat 0 16) /\
    forall j,
      [0; 0; 0; 0; 0; 0; 0; 0; 0; 0; 0; 222; 173; 190; 239; 0] !! j =
      match last_write rs j with
      | Some b => Some b
      | None => repeat 0 16 !! j
      end.
Proof.
  assert (Hcap : 16 <= Z.of_nat (length (repeat 0 16))) by (simpl; lia).
  assert (H : load_ihex_buffer bad_second_line_file (repeat 0 16) 16
    = Some (Returned (Some (Invalid_record 2))
              [0; 0; 0; 0; 0; 0; 0; 0; 0; 0; 0; 222; 173; 190; 239; 0] 16))
    by reflexivity.
  split; [exact Hcap|]. split; [exact H|].
  exact (buffer_holds_the_records_read _ _ _ _ _ _ Hcap H).
Defined.

Lemma reads_ends_below buffer_sz f st rs f' st' :
  reads buffer_sz f st rs f' st' ->
  Forall (fun r => type r = 0 -> addr r + size r < buffer_sz) rs.
Proof.
  induction 1 as [|f st line rest r cs st1 rs f2 st2 _ _ _ _ Hrec _ IH];
    constructor; [|exact IH].
  apply process_record_continue in Hrec as [_ Hrec].
  destruct Hrec as [(_ & Hin & _)|(Ht & _)]; [auto|intros; congruence].
Qed.

Lemma last_write_below buffer_sz rs j :
  Forall wf_record rs ->
  Forall (fun r => type r = 0 -> addr r + size r < buffer_sz) rs ->
  (Z.to_nat (buffer_sz - 1) <= j)%nat ->
  last_write rs j = None.
Proof.
  induction 1 as [|r rs (Hsize & Haddr & _) _ IH]; intros Hends Hj;
    [reflexivity|].
  apply Forall_cons_1 in Hends as [Hend Hends]. simpl.
  rewrite IH by assumption. unfold is_byte in Hsize.
  destruct (type r =? 0) eqn:Ht; [|reflexivity].
  apply Z.eqb_eq in Ht. specialize (Hend Ht). simpl.
  destruct (Z.to_nat (addr r) <=? j)%nat; [|reflexivity]. simpl.
  destruct (j <? Z.to_nat (addr r) + Z.to_nat (size r))%nat eqn:Hlt;
    [|reflexivity].
  apply Nat.ltb_lt in Hlt. lia.
Qed.

(** X11.  The loader never stores at or above [*buffer_sz - 1]: every
    position a record read by the load stores to lies in
    [0 .. *buffer_sz - 2], and whatever the outcome the buffer keeps its
    length and, from position [*buffer_sz - 1] on, its contents.  The last
    byte of the capacity cannot be loaded. *)
Theorem stores_stay_below_the_last_byte
    f buffer0 buffer_sz ret buffer' buffer_sz' :
  load_ihex_buffer f buffer0 buffer_sz
  = Some (Returned ret buffer' buffer_sz') ->
  (exists rs f' st',
     reads buffer_sz f (initial_state buffer0) rs f' st' /\
     buffer' = buffer st' /\
     Forall (fun r => Forall (fun p => 0 <= p < buffer_sz - 1) (stores r))
       rs) /\
  length buffer' = length buffer0 /\
  forall j, (Z.to_nat (buffer_sz - 1) <= j)%nat ->
    buffer' !! j = buffer0 !! j.
Proof.
  intros H.
  apply load_exit in H as (rs & f' & st' & Hreads & _ & ->).
  pose proof (reads_wf _ _ _ _ _ _ Hreads) as Hwf.
  pose proof (reads_ends_below _ _ _ _ _ _ Hreads) as Hends.
  split; [|split].
  - exists rs, f', st'. split; [exact Hreads|]. split; [reflexivity|].
    clear Hreads. induction Hwf as [|r rs (Hsize & Haddr & _) _ IH];
      [constructor|].
    apply Forall_cons_1 in Hends as [Hend Hends].
    constructor; [|apply IH, Hends].
    unfold stores. destruct (type r =? 0) eqn:Ht; [|constructor].
    apply Z.eqb_eq in Ht. specialize (Hend Ht). unfold is_byte in Hsize.
    apply Forall_forall. intros p Hp.
    apply list_elem_of_In, in_map_iff in Hp as (i & <- & Hi).
    apply in_seq in Hi. lia.
  - apply (reads_length _ _ _ _ _ _ Hreads).
  - intros j Hj.
    destruct (Z_le_gt_dec buffer_sz (Z.of_nat (length buffer0)))
      as [Hcap|Hcap].
    + rewrite (reads_last_write _ _ _ _ _ _ Hreads Hcap).
      rewrite (last_write_below buffer_sz rs j Hwf Hends Hj). reflexivity.
    + assert (Hlen : length (buffer st') = length buffer0)
        by apply (reads_length _ _ _ _ _ _ Hreads).
      rewrite !lookup_ge_None_2 by lia. reflexivity.
Qed.

Lemma stores_stay_below_the_last_byte_witness :
  load_ihex_buffer small_image_file (repeat 0 16) 16
  = Some (Returned None (buffer state_after_small_image) 15) /\
  length (buffer state_after_small_image) = length (repeat 0 16).
Proof.
  assert (H : load_ihex_buffer small_image_file (repeat 0 16) 16
    = Some (Returned None (buffer state_after_small_image) 15))
    by reflexivity.
  split; [exact H|].
  exact (proj1 (proj2 (stores_stay_below_the_last_byte _ _ _ _ _ _ H))).
Defined.

Lemma max_end_below buffer_sz rs :
  0 < buffer_sz ->
  Forall (fun r => type r = 0 -> addr r + size r < buffer_sz) rs ->
  max_end rs < buffer_sz.
Proof.
  intros Hsz. induction 1 as [|r rs Hr _ IH]; simpl; [exact Hsz|].
  destruct (type r =? 0) eqn:Ht; [|exact IH].
  apply Z.eqb_eq in Ht. specialize (Hr Ht). unfold end_addr. lia.
Qed.

Lemma used_length_below_capacity_aux f buffer0 buffer' used :
  load_ihex_buffer f buffer0 IHEX_BUFFER_MAX_SZ
  = Some (Returned None buffer' used) ->
  0 <= used < IHEX_BUFFER_MAX_SZ.
Proof.
  intros H.
  assert (Hsz : IHEX_BUFFER_MAX_SZ <> 0) by discriminate.
  apply (load_success_inv _ _ _ _ _ Hsz) in H.
  destruct H as (rs & f' & st' & Hreads & _ & _ & _ & ->).
  split.
  - apply max_end_nonneg, (reads_wf _ _ _ _ _ _ Hreads).
  - apply max_end_below; [reflexivity|].
    apply (reads_ends_below _ _ _ _ _ _ Hreads).
Qed.

(** X12.  The used length a load reports is smaller than the capacity it
    was given, and never more than 65535 + 255: the caller can read that
    many bytes of its buffer. *)
Theorem used_length_is_below_the_capacity f buffer0 buffer_sz buffer' buffer_sz' :
  0 <= buffer_sz ->
  load_ihex_buffer f buffer0 buffer_sz
  = Some (Returned None buffer' buffer_sz') ->
  0 <= buffer_sz' < buffer_sz /\ buffer_sz' <= 65535 + 255.
Proof.
  intros Hpos H.
  assert (Hsz : buffer_sz <> 0).
  { intros ->. unfold load_ihex_buffer in H. simpl in H. discriminate. }
  apply (load_success_inv _ _ _ _ _ Hsz) in H.
  destruct H as (rs & f' & st' & Hreads & _ & _ & _ & ->).
  pose proof (reads_wf _ _ _ _ _ _ Hreads) as Hwf.
  pose proof (reads_ends_below _ _ _ _ _ _ Hreads) as Hends.
  split; [split|].
  - apply max_end_nonneg, Hwf.
  - apply max_end_below; [lia|exact Hends].
  - clear Hreads Hends.
    induction Hwf as [|r rs (Hsize & Haddr & _) _ IH]; simpl; [lia|].
    unfold is_byte, end_addr in *. destruct (type r =? 0); lia.
Qed.

Lemma used_length_is_below_the_capacity_witness :
  0 <= 16 /\
  load_ihex_buffer small_image_file (repeat 0 16) 16
  = Some (Returned None (buffer state_after_small_image) 15) /\
  0 <= 15 < 16 /\ 15 <= 65535 + 255.
Proof.
  assert (Hpos : 0 <= 16) by lia.
  assert (H : load_ihex_buffer small_image_file (repeat 0 16) 16
    = Some (Returned None (buffer state_after_small_image) 15))
    by reflexivity.
  split; [exact Hpos|]. split; [exact H|].
  exact (used_length_is_below_the_capacity _ _ _ _ _ Hpos H).
Defined.

(** ** The first error ends the load *)

Lemma ends_with_LF_cons c t :
  t <> [] -> ends_with_LF (c :: t) = ends_with_LF t.
Proof. destruct t; [congruence|reflexivity]. Qed.

(** A line [fgets] has read to its new line, or to the full width of the
    line buffer, is read the same whatever follows in the stream. *)
Lemma fgets_chars_app_rest n : forall s l r rest,
  fgets_chars n s = (l, r) ->
  ends_with_LF l = true \/ length l = n ->
  fgets_chars n (s ++ rest) = (l, r ++ rest).
Proof.
  induction n as [|n IH]; intros s l r rest H Hfull.
  - simpl in H. injection H as <- <-. reflexivity.
  - destruct s as [|c t]; simpl in H.
    + injection H as <- <-. destruct Hfull as [Hf|Hf]; discriminate.
    + simpl. destruct (is_char c LF) eqn:Hc;
        [injection H as <- <-; reflexivity|].
      destruct (fgets_chars n t) as [l0 r0] eqn:Hrec.
      injection H as <- <-.
      rewrite (IH t l0 r0 rest Hrec); [reflexivity|].
      destruct Hfull as [Hf|Hf]; [|right; simpl in Hf; lia].
      left. destruct l0 as [|x l0].
      * unfold ends_with_LF in Hf. simpl in Hf. congruence.
      * rewrite ends_with_LF_cons in Hf by discriminate. exact Hf.
Qed.

Lemma fgets_chars_LF_terminated n : forall s l r,
  (0 < n)%nat ->
  ends_with_LF s = true ->
  fgets_chars n s = (l, r) ->
  (ends_with_LF l = true \/ length l = n) /\
  (r = [] \/ ends_with_LF r = true).
Proof.
  induction n as [|n IH]; intros s l r Hn Hs H; [lia|].
  destruct s as [|c t]; [discriminate|]. simpl in H.
  destruct (is_char c LF) eqn:Hc.
  - injection H as <- <-. split.
    + left. unfold ends_with_LF. simpl. exact Hc.
    + destruct t as [|x t]; [left; reflexivity|].
      right. rewrite ends_with_LF_cons in Hs by discriminate. exact Hs.
  - destruct t as [|x t].
    + unfold ends_with_LF in Hs. simpl in Hs. congruence.
    + rewrite ends_with_LF_cons in Hs by discriminate.
      destruct (fgets_chars n (x :: t)) as [l0 r0] eqn:Hrec.
      injection H as <- <-.
      destruct n as [|n].
      * simpl in Hrec. injection Hrec as <- <-.
        split; [right; reflexivity|]. right. exact Hs.
      * destruct (IH _ _ _ ltac:(lia) Hs Hrec) as [Hfull Hr].
        split; [|exact Hr].
        destruct Hfull as [Hf|Hf]; [left|right; simpl; lia].
        destruct l0; [discriminate|].
        rewrite ends_with_LF_cons by discriminate. exact Hf.
Qed.

Lemma fgets_prefix pre e rest e' :
  ends_with_LF pre = true ->
  exists l r,
    fgets IHEX_LINE_MAX_SZ {| contents := pre; at_end := e |}
    = Fgets_line l {| contents := r; at_end := e |} /\
    fgets IHEX_LINE_MAX_SZ {| contents := pre ++ rest; at_end := e' |}
    = Fgets_line l {| contents := r ++ rest; at_end := e' |} /\
    (r = [] \/ ends_with_LF r = true).
Proof.
  intros Hpre. unfold fgets, IHEX_LINE_MAX_SZ. simpl contents.
  change (521 - 1)%nat with 520%nat.
  destruct (fgets_chars 520 pre) as [l r] eqn:Hchars.
  destruct (fgets_chars_LF_terminated 520 pre l r ltac:(lia) Hpre Hchars)
    as [Hfull Hr].
  rewrite (fgets_chars_app_rest 520 pre l r rest Hchars Hfull).
  exists l, r. simpl at_end.
  assert (Hhit : negb (ends_with_LF l) && (length l <? 520)%nat = false).
  { destruct Hfull as [->| ->]; [reflexivity|].
    rewrite Nat.ltb_irrefl. apply andb_false_r. }
  assert (Hne : l <> []).
  { destruct Hfull as [Hf|Hf]; intros ->; discriminate. }
  rewrite Hhit. split; [|split; [|exact Hr]].
  - destruct e; [destruct l; [congruence|reflexivity]|].
    destruct r; reflexivity.
  - destruct e'; [destruct l; [congruence|reflexivity]|].
    destruct (r ++ rest); reflexivity.
Qed.

Lemma loop_body_line buffer_sz f st l g :
  fgets IHEX_LINE_MAX_SZ f = Fgets_line l g ->
  loop_body buffer_sz f st =
  if last_record_read st
  then Exit (Returned
               (Some (Data_after_last_record (to_size_t (line_number st + 1))))
               (buffer st) buffer_sz)
  else
    match process_line buffer_sz l (next_line st) with
    | Return e st' => Exit (Returned (Some e) (buffer st') buffer_sz)
    | Continue st' => Next g st'
    end.
Proof. intros H. unfold loop_body. rewrite H. reflexivity. Qed.

Lemma load_loop_prefix buffer_sz : forall fuel pre st e buffer' buffer_sz'
    rest e',
  pre = [] \/ ends_with_LF pre = true ->
  load_loop fuel buffer_sz {| contents := pre; at_end := End_of_file |} st
  = Some (Returned (Some e) buffer' buffer_sz') ->
  (forall n, e <> Unexpected_end_of_file n) ->
  load_loop fuel buffer_sz {| contents := pre ++ rest; at_end := e' |} st
  = Some (Returned (Some e) buffer' buffer_sz').
Proof.
  induction fuel as [|fuel IH]; intros pre st e b sz rest e' Hpre H Hne;
    [discriminate|].
  destruct Hpre as [->|Hpre].
  - simpl in H. unfold loop_body in H. simpl in H.
    destruct (last_record_read st); simplify_eq.
    exfalso. eapply Hne. reflexivity.
  - destruct (fgets_prefix pre End_of_file rest e' Hpre)
      as (l & r & H1 & H2 & Hr).
    simpl in *. rewrite (loop_body_line _ _ _ _ _ H1) in H.
    rewrite (loop_body_line _ _ _ _ _ H2).
    destruct (last_record_read st); [exact H|].
    destruct (process_line buffer_sz l (next_line st)); [|exact H].
    eapply IH; eauto.
Qed.

(** X13.  The load stops at the first error.  When a file of complete
    lines fails with an error other than the missing last record, every
    file that begins with these lines fails with the same error and leaves
    the same buffer, whatever follows them and however the stream ends. *)
Theorem first_error_ends_the_load
    pre rest e' buffer0 buffer_sz e buffer' buffer_sz' :
  ends_with_LF pre = true ->
  load_ihex_buffer {| contents := pre; at_end := End_of_file |}
    buffer0 buffer_sz
  = Some (Returned (Some e) buffer' buffer_sz') ->
  (forall n, e <> Unexpected_end_of_file n) ->
  load_ihex_buffer {| contents := pre ++ rest; at_end := e' |}
    buffer0 buffer_sz
  = Some (Returned (Some e) buffer' buffer_sz').
Proof.
  intros Hpre H Hne. unfold load_ihex_buffer in *.
  destruct (buffer_sz =? 0); [discriminate|]. simpl contents in *.
  apply load_loop_prefix; auto.
  apply load_loop_more_fuel with (fuel := S (length pre)); [exact H|].
  rewrite length_app. lia.
Qed.

Lemma first_error_ends_the_load_witness :
  ends_with_LF (contents bad_second_line_file) = true /\
  load_ihex_buffer
    {| contents := contents bad_second_line_file; at_end := End_of_file |}
    (repeat 0 16) 16
  = Some (Returned (Some (Invalid_record 2))
            (buffer state_after_data_line) 16) /\
  (forall n, Invalid_record 2 <> Unexpected_end_of_file n) /\
  load_ihex_buffer bad_second_line_then_more (repeat 0 16) 16
  = Some (Returned (Some (Invalid_record 2))
            (buffer state_after_data_line) 16).
Proof.
  assert (Hpre : ends_with_LF (contents bad_second_line_file) = true)
    by reflexivity.
  assert (H : load_ihex_buffer
    {| contents := contents bad_second_line_file; at_end := End_of_file |}
    (repeat 0 16) 16
    = Some (Returned (Some (Invalid_record 2))
              (buffer state_after_data_line) 16)) by reflexivity.
  assert (Hne : forall n, Invalid_record 2 <> Unexpected_end_of_file n)
    by discriminate.
  split; [exact Hpre|]. split; [exact H|]. split; [exact Hne|].
  exact (first_error_ends_the_load _ (chars ":0000")
           (Read_error "Input/output error") _ _ _ _ _ Hpre H Hne).
Defined.

(** ** Files in the format *)

Lemma xdigit_hex_digit v : 0 <= v <= 15 -> xdigit (hex_digit v) = Some v.
Proof.
  intros Hv.
  assert (H : v = 0 \/ v = 1 \/ v = 2 \/ v = 3 \/ v = 4 \/ v = 5 \/ v = 6
              \/ v = 7 \/ v = 8 \/ v = 9 \/ v = 10 \/ v = 11 \/ v = 12
              \/ v = 13 \/ v = 14 \/ v = 15) by lia.
  repeat (destruct H as [->|H]; [reflexivity|]). subst v. reflexivity.
Qed.

Lemma isxdigit_hex_digit v : 0 <= v <= 15 -> isxdigit (hex_digit v) = true.
Proof.
  intros Hv. unfold isxdigit. rewrite (xdigit_hex_digit v Hv). reflexivity.
Qed.

Lemma all_xdigits_hex2 b : 0 <= b <= 255 -> all_xdigits (hex2 b).
Proof.
  intros Hb. unfold hex2.
  assert (0 <= b / 16 <= 15) by (Z.to_euclidean_division_equations; lia).
  assert (0 <= b mod 16 <= 15) by (Z.to_euclidean_division_equations; lia).
  repeat constructor; apply isxdigit_hex_digit; assumption.
Qed.

Lemma hex_value_hex2 b : 0 <= b <= 255 -> hex_value (hex2 b) = b.
Proof.
  intros Hb. unfold hex_value, hex2. simpl.
  assert (0 <= b / 16 <= 15) by (Z.to_euclidean_division_equations; lia).
  assert (0 <= b mod 16 <= 15) by (Z.to_euclidean_division_equations; lia).
  rewrite !xdigit_hex_digit by assumption. simpl.
  Z.to_euclidean_division_equations; lia.
Qed.

Lemma hex_value_hex4 w : 0 <= w <= 65535 -> hex_value (hex4 w) = w.
Proof.
  intros Hw. unfold hex_value, hex4, hex2. simpl.
  assert (0 <= w / 256 <= 255) by (Z.to_euclidean_division_equations; lia).
  assert (0 <= w mod 256 <= 255) by (Z.to_euclidean_division_equations; lia).
  assert (0 <= w / 256 / 16 <= 15)
    by (Z.to_euclidean_division_equations; lia).
  assert (0 <= (w / 256) mod 16 <= 15)
    by (Z.to_euclidean_division_equations; lia).
  assert (0 <= w mod 256 / 16 <= 15)
    by (Z.to_euclidean_division_equations; lia).
  assert (0 <= (w mod 256) mod 16 <= 15)
    by (Z.to_euclidean_division_equations; lia).
  rewrite !xdigit_hex_digit by assumption. simpl.
  Z.to_euclidean_division_equations; lia.
Qed.

Lemma length_concat_hex2 ds : length (concat (map hex2 ds)) = (2 * length ds)%nat.
Proof. induction ds as [|d ds IH]; simpl; [reflexivity|]. rewrite IH. lia. Qed.

Lemma all_xdigits_concat_hex2 ds :
  Forall (fun b => 0 <= b <= 255) ds -> all_xdigits (concat (map hex2 ds)).
Proof.
  induction 1 as [|d ds Hd _ IH]; simpl; [constructor|].
  apply all_xdigits_hex2 in Hd. unfold all_xdigits in *.
  apply Forall_cons_1 in Hd as [H1 Hd]. apply Forall_cons_1 in Hd as [H2 _].
  repeat constructor; assumption.
Qed.

(** The pair of digits at position [2*i] behind the data of a record. *)
Lemma field_concat_hex2 ds tl : forall i,
  (i <= length ds)%nat ->
  take 2 (drop (2 * i) (concat (map hex2 ds) ++ tl))
  = match ds !! i with
    | Some b => hex2 b
    | None => take 2 tl
    end.
Proof.
  induction ds as [|d ds IH]; intros i Hi.
  - simpl in Hi. replace i with 0%nat by lia. reflexivity.
  - destruct i as [|i]; [reflexivity|].
    replace (2 * S i)%nat with (S (S (2 * i))) by lia.
    simpl in Hi. simpl. apply IH. lia.
Qed.

Lemma all_xdigits_record_body r : writable r -> all_xdigits (record_body r).
Proof.
  intros (Hs & _ & Ha & Ht & Hc & Hd). unfold record_body, hex4, all_xdigits.
  assert (0 <= addr r / 256 <= 255)
    by (Z.to_euclidean_division_equations; lia).
  assert (0 <= addr r mod 256 <= 255)
    by (Z.to_euclidean_division_equations; lia).
  repeat apply Forall_app_2;
    try (apply all_xdigits_hex2; assumption).
  apply all_xdigits_concat_hex2, Hd.
Qed.

Lemma length_record_body r :
  length (record_body r) = (10 + 2 * length (data r))%nat.
Proof.
  unfold record_body, hex4, hex2. simpl.
  rewrite length_app, length_concat_hex2. simpl. lia.
Qed.

Lemma record_of_digits_body r :
  writable r -> record_of_digits (record_body r) (length (data r)) = r.
Proof.
  intros (Hs & Hlen & Ha & Ht & Hc & Hd).
  unfold record_of_digits.
  assert (Hsize : field (record_body r) 0 2 = size r).
  { unfold field, record_body. simpl. apply hex_value_hex2, Hs. }
  assert (Haddr : field (record_body r) 2 4 = addr r).
  { unfold field, record_body. simpl. apply (hex_value_hex4 _ Ha). }
  assert (Htype : field (record_body r) 6 2 = type r).
  { unfold field, record_body. simpl. apply hex_value_hex2, Ht. }
  assert (Hfield : forall i, (i <= length (data r))%nat ->
            field (record_body r) (8 + 2 * i) 2
            = match data r !! i with
              | Some b => hex_value (hex2 b)
              | None => checksum r
              end).
  { intros i Hi. unfold field, record_body, hex4.
    change (hex2 (size r) ++ (hex2 (addr r / 256) ++ hex2 (addr r mod 256))
            ++ hex2 (type r) ++ concat (map hex2 (data r))
            ++ hex2 (checksum r))
      with ([hex_digit (size r / 16); hex_digit (size r mod 16);
             hex_digit (addr r / 256 / 16); hex_digit ((addr r / 256) mod 16);
             hex_digit (addr r mod 256 / 16);
             hex_digit ((addr r mod 256) mod 16);
             hex_digit (type r / 16); hex_digit (type r mod 16)]
            ++ (concat (map hex2 (data r)) ++ hex2 (checksum r))).
    rewrite <- drop_drop. change (drop 8 (?l ++ ?m)) with m.
    rewrite (field_concat_hex2 _ _ i Hi).
    destruct (data r !! i); [reflexivity|].
    change (take 2 (hex2 (checksum r))) with (hex2 (checksum r)).
    apply hex_value_hex2, Hc. }
  assert (Hck : field (record_body r) (8 + 2 * length (data r)) 2
                = checksum r).
  { rewrite Hfield by lia. rewrite lookup_ge_None_2 by lia. reflexivity. }
  assert (Hdata : map (fun i => field (record_body r) (8 + 2 * i) 2)
                    (seq 0 (length (data r))) = data r).
  { apply list_eq. intros i.
    change (map ?f ?l) with (f <$> l). rewrite list_lookup_fmap.
    destruct (decide (i < length (data r))%nat) as [Hi|Hi].
    - rewrite lookup_seq_lt by exact Hi.
      change (0 + i)%nat with i.
      change (Some (field (record_body r) (8 + 2 * i) 2) = data r !! i).
      rewrite Hfield by lia.
      destruct (lookup_lt_is_Some_2 (data r) i Hi) as [b Hb].
      rewrite Hb. f_equal. apply hex_value_hex2.
      rewrite Forall_forall in Hd. apply Hd.
      apply list_elem_of_lookup. eauto.
    - rewrite lookup_seq_ge by lia. simpl.
      rewrite lookup_ge_None_2 by lia. reflexivity. }
  rewrite Hsize, Haddr, Htype, Hck, Hdata. destruct r; reflexivity.
Qed.

Lemma read_written_record r :
  writable r ->
  read_record_from_line (record_line r)
  = inr (r, (size r + addr r / 256 + addr r mod 256 + type r
             + total (data r)) mod 256).
Proof.
  intros Hw.
  pose proof Hw as (Hs & Hlen & _).
  pose proof (record_of_digits_body r Hw) as Hrec.
  assert (Hsize : field (record_body r) 0 2 = Z.of_nat (length (data r))).
  { rewrite Hlen. unfold field, record_body. simpl.
    apply hex_value_hex2, Hs. }
  destruct (read_record_of_digits (record_body r) (length (data r))
              (all_xdigits_record_body r Hw) (length_record_body r) Hsize)
    as [cs Hread].
  unfold record_line. rewrite Hread, Hrec. do 2 f_equal.
  rewrite Hrec in Hread.
  assert (Hbuf : Z.of_nat (length (":"%char :: record_body r)) < 2 ^ 63).
  { change (length (":"%char :: record_body r))
      with (S (length (record_body r))).
    rewrite length_record_body. lia. }
  destruct (read_record_inv_wide _ _ _ Hbuf Hread)
    as (_ & _ & _ & _ & _ & _ & _ & ->).
  rewrite Z.shiftr_div_pow2 by lia. reflexivity.
Qed.

(** X14.  What a writer of the format writes, the reader reads back: for
    every record the structure can hold, the line made of the colon and
    the fields in upper-case hexadecimal digits, with any line end behind
    it, is read as that very record, and the running check sum is the sum
    of its bytes but the last, modulo 256. *)
Theorem written_record_is_read_back r eols :
  writable r ->
  Forall (fun c => is_eol c = true) eols ->
  read_record_from_line (record_line r ++ eols)
  = inr (r, (size r + addr r / 256 + addr r mod 256 + type r
             + total (data r)) mod 256).
Proof.
  intros Hw Heols.
  rewrite <- (read_written_record r Hw).
  unfold read_record_from_line.
  rewrite (strip_eol_c_str_app (record_line r) eols Heols). reflexivity.
Qed.

Lemma written_record_is_read_back_witness :
  writable data_record_at_11 /\
  Forall (fun c => is_eol c = true) [CR; LF] /\
  read_record_from_line (record_line data_record_at_11 ++ [CR; LF])
  = inr (data_record_at_11, 71).
Proof.
  assert (Hw : writable data_record_at_11).
  { unfold writable. simpl. repeat split; try lia.
    repeat constructor; lia. }
  assert (He : Forall (fun c => is_eol c = true) [CR; LF])
    by (repeat constructor).
  split; [exact Hw|]. split; [exact He|].
  exact (written_record_is_read_back data_record_at_11 [CR; LF] Hw He).
Defined.

Lemma reads_app buffer_sz f st rs1 f1 st1 rs2 f2 st2 :
  reads buffer_sz f st rs1 f1 st1 ->
  reads buffer_sz f1 st1 rs2 f2 st2 ->
  reads buffer_sz f st (rs1 ++ rs2) f2 st2.
Proof.
  induction 1; intros Hsecond; [exact Hsecond|].
  simpl. eapply reads_cons; eauto.
Qed.

Lemma record_line_no_LF r :
  writable r -> Forall (fun c => is_char c LF = false) (record_line r).
Proof.
  intros Hw. unfold record_line. constructor; [reflexivity|].
  eapply Forall_impl; [apply (all_xdigits_record_body r Hw)|].
  intros c Hc. apply xdigit_not_special; [exact Hc|].
  left. reflexivity.
Qed.

Lemma length_record_line r :
  length (record_line r) = (11 + 2 * length (data r))%nat.
Proof.
  unfold record_line.
  change (length (":"%char :: record_body r))
    with (S (length (record_body r))).
  rewrite length_record_body. lia.
Qed.

(** One iteration on the line of a written record. *)
Lemma reads_written_record buffer_sz r rest e st st1 :
  writable r -> size r <= 254 ->
  checksum r = expected_checksum r ->
  last_record_read st = false ->
  process_record buffer_sz r (next_line st) = Continue st1 ->
  reads buffer_sz
    {| contents := (record_line r ++ [LF]) ++ rest; at_end := e |} st
    [r] {| contents := rest; at_end := e |} st1.
Proof.
  intros Hw Hsize Hck Hflag Hrec.
  pose proof Hw as (_ & Hlen & _).
  replace ((record_line r ++ [LF]) ++ rest)
    with (record_line r ++ LF :: rest)
    by (rewrite <- app_assoc; reflexivity).
  eapply (reads_cons _ _ _ (record_line r ++ [LF]));
    [| exact Hflag | | | exact Hrec | apply reads_nil].
  - apply fgets_line; [apply record_line_no_LF, Hw|].
    rewrite length_record_line. unfold IHEX_LINE_MAX_SZ. lia.
  - rewrite <- (read_written_record r Hw).
    unfold read_record_from_line.
    rewrite (strip_eol_c_str_app (record_line r) [LF])
      by (repeat constructor).
    reflexivity.
  - rewrite Hck. unfold expected_checksum.
    generalize (size r + addr r / 256 + addr r mod 256 + type r
                + total (data r)).
    intros s. unfold ui8. Z.to_euclidean_division_equations. lia.
Qed.

Lemma reads_written_records buffer_sz : forall ds rest e st,
  Forall (loadable buffer_sz) ds ->
  last_record_read st = false ->
  exists st',
    reads buffer_sz
      {| contents := concat (map (fun r => record_line r ++ [LF]) ds) ++ rest;
         at_end := e |} st
      ds {| contents := rest; at_end := e |} st' /\
    last_record_read st' = false.
Proof.
  induction ds as [|d ds IH]; intros rest e st Hds Hflag.
  - exists st. split; [apply reads_nil|exact Hflag].
  - apply Forall_cons_1 in Hds as [(Hw & Ht & Hsize & Hck & Hin) Hds].
    assert (Hrec : exists st1,
              process_record buffer_sz d (next_line st) = Continue st1
              /\ last_record_read st1 = false).
    { unfold process_record. rewrite Ht. simpl.
      destruct (addr d + size d >=? buffer_sz) eqn:Hcmp;
        [apply Z.geb_ge in Hcmp; lia|].
      eexists. split; [reflexivity|]. simpl. exact Hflag. }
    destruct Hrec as (st1 & Hrec & Hflag1).
    destruct (IH rest e st1 Hds Hflag1) as (st' & Hreads & Hflag').
    exists st'. split; [|exact Hflag'].
    change (concat (map (fun r => record_line r ++ [LF]) (d :: ds)))
      with ((record_line d ++ [LF])
            ++ concat (map (fun r => record_line r ++ [LF]) ds)).
    rewrite <- (app_assoc (record_line d ++ [LF])).
    change (d :: ds) with ([d] ++ ds).
    eapply reads_app; [|exact Hreads].
    apply reads_written_record; auto.
Qed.

Lemma max_end_app_last ds t :
  type t = 1 -> max_end (ds ++ [t]) = max_end ds.
Proof.
  intros Ht. induction ds as [|d ds IH]; simpl.
  - rewrite Ht. reflexivity.
  - rewrite IH. reflexivity.
Qed.

Lemma last_write_app_last ds t j :
  type t = 1 -> last_write (ds ++ [t]) j = last_write ds j.
Proof.
  intros Ht. induction ds as [|d ds IH]; simpl.
  - rewrite Ht. reflexivity.
  - rewrite IH. reflexivity.
Qed.

(** X15.  A file in the format loads.  For data records with right check
    sums, at most 254 bytes each and ends below the capacity, written one
    per line with a new line behind each and the last record behind them,
    [load_ihex_buffer] returns a null pointer, [*buffer_sz] becomes the
    largest end address and the buffer holds the data of the records,
    later records over earlier ones, and is otherwise as the caller gave
    it. *)
Theorem written_image_loads ds buffer0 buffer_sz :
  Forall (loadable buffer_sz) ds ->
  0 < buffer_sz <= Z.of_nat (length buffer0) ->
  exists buffer',
    load_ihex_buffer
      {| contents := image_contents ds; at_end := End_of_file |}
      buffer0 buffer_sz
    = Some (Returned None buffer' (max_end ds)) /\
    length buffer' = length buffer0 /\
    forall j,
      buffer' !! j =
      match last_write ds j with
      | Some b => Some b
      | None => buffer0 !! j
      end.
Proof.
  intros Hds [Hpos Hcap]. unfold image_contents.
  destruct (reads_written_records buffer_sz ds
              (record_line terminator_record ++ [LF]) End_of_file
              (initial_state buffer0) Hds eq_refl)
    as (st1 & Hreads & Hflag).
  assert (Hw : writable terminator_record).
  { unfold writable. simpl. repeat split; try lia. constructor. }
  assert (Hlast : reads buffer_sz
            {| contents := record_line terminator_record ++ [LF];
               at_end := End_of_file |} st1 [terminator_record]
            end_of_stream
            {| line_number := to_size_t (line_number st1 + 1);
               highest_addr := highest_addr st1;
               last_record_read := true;
               buffer := buffer st1 |}).
  { rewrite <- (app_nil_r (record_line terminator_record ++ [LF])).
    apply reads_written_record;
      [exact Hw|simpl; lia|reflexivity|exact Hflag|reflexivity]. }
  pose proof (reads_app _ _ _ _ _ _ _ _ _ Hreads Hlast) as Hall.
  exists (buffer st1). split; [|split].
  - rewrite <- (max_end_app_last ds terminator_record eq_refl).
    assert (Hsz : buffer_sz <> 0) by lia.
    apply (well_formed_load_succeeds _ _ _ _ _ _ Hsz Hall); reflexivity.
  - apply (reads_length _ _ _ _ _ _ Hreads).
  - apply (reads_last_write _ _ _ _ _ _ Hreads). exact Hcap.
Qed.

Lemma written_image_loads_witness :
  Forall (loadable 16) [data_record_at_11; second_data_record] /\
  0 < 16 <= Z.of_nat (length (repeat 0 16)) /\
  exists buffer',
    load_ihex_buffer
      {| contents := image_contents [data_record_at_11; second_data_record];
         at_end := End_of_file |}
      (repeat 0 16) 16
    = Some (Returned None buffer'
              (max_end [data_record_at_11; second_data_record])) /\
    length buffer' = length (repeat 0 16) /\
    forall j,
      buffer' !! j =
      match last_write [data_record_at_11; second_data_record] j with
      | Some b => Some b
      | None => repeat 0 16 !! j
      end.
Proof.
  assert (Hds : Forall (loadable 16) [data_record_at_11; second_data_record]).
  { repeat constructor; simpl; try lia; try reflexivity. }
  assert (Hcap : 0 < 16 <= Z.of_nat (length (repeat 0 16)))
    by (simpl; lia).
  split; [exact Hds|]. split; [exact Hcap|].
  exact (written_image_loads _ _ _ Hds Hcap).
Defined.

(** ** [main] *)

(** X16.  [main] always returns, and returns [EXIT_SUCCESS] exactly when it
    is given one argument, the file of that name opens and
    [load_ihex_buffer] returns a null pointer for it. *)
Theorem main_succeeds_iff_the_file_loads argv0 args fopen buffer0 :
  exists exit_code events,
    main argv0 args fopen buffer0 = Some (Main_returned exit_code events) /\
    (exit_code = EXIT_SUCCESS <->
     exists path f buffer' used,
       args = [path] /\ fopen path = Some f /\
       load_ihex_buffer f buffer0 IHEX_BUFFER_MAX_SZ
       = Some (Returned None buffer' used)).
Proof.
  unfold main.
  destruct args as [|path [|path2 args]].
  - do 2 eexists. split; [reflexivity|]. split; [discriminate|].
    intros (? & ? & ? & ? & ? & _). discriminate.
  - destruct (fopen path) as [f|] eqn:Hopen.
    + destruct (load_ihex_buffer_returns f buffer0 IHEX_BUFFER_MAX_SZ)
        as [o Ho].
      rewrite Ho. destruct o as [|[e|] b sz].
      * exfalso. rewrite load_ihex_buffer_run in Ho by discriminate.
        unfold run in Ho.
        apply load_loop_exit in Ho as (? & ? & _ & Ho).
        eapply loop_body_not_aborted, Ho.
      * do 2 eexists. split; [reflexivity|]. split; [discriminate|].
        intros (p & g & b' & u & Hargs & Hg & Hload). simplify_eq.
      * do 2 eexists. split; [reflexivity|]. split; [|reflexivity].
        intros _. exists path, f, b, sz. auto.
    + do 2 eexists. split; [reflexivity|]. split; [discriminate|].
      intros (p & g & b' & u & Hargs & Hg & _). simplify_eq.
  - do 2 eexists. split; [reflexivity|]. split; [discriminate|].
    intros (? & ? & ? & ? & ? & _). discriminate.
Qed.

(** X17.  [main] hands [upload_buffer_to_dev] nothing but a loaded image:
    an upload happens only after [load_ihex_buffer] returned a null
    pointer, with the buffer and the used length the loader left, and that
    length is below [IHEX_BUFFER_MAX_SZ].  When the load fails the message
    goes to the error stream and no upload follows; the file, once opened,
    is closed last on every path. *)
Theorem main_uploads_only_a_loaded_image
    argv0 args fopen buffer0 exit_code events :
  main argv0 args fopen buffer0 = Some (Main_returned exit_code events) ->
  (forall buffer' used, In (Upload buffer' used) events ->
     exists path f,
       args = [path] /\ fopen path = Some f /\
       load_ihex_buffer f buffer0 IHEX_BUFFER_MAX_SZ
       = Some (Returned None buffer' used) /\
       0 <= used < IHEX_BUFFER_MAX_SZ) /\
  (forall path f e buffer' buffer_sz',
     args = [path] -> fopen path = Some f ->
     load_ihex_buffer f buffer0 IHEX_BUFFER_MAX_SZ
     = Some (Returned (Some e) buffer' buffer_sz') ->
     exit_code = EXIT_FAILURE /\
     events = [Stderr ("Unable to load hex file: " ++ message e ++ nl);
               Fclose path]) /\
  (forall path f, args = [path] -> fopen path = Some f ->
     last events = Some (Fclose path)) /\
  (forall path, In (Fclose path) events ->
     args = [path] /\ fopen path <> None).
Proof.
  unfold main, upload_buffer_to_dev. intros H.
  assert (Hno : forall ev s, In ev [Stdout s] -> exists t, ev = Stdout t).
  { intros ev s [<-|[]]. eauto. }
  destruct args as [|path [|path2 args]].
  - simplify_eq. split; [|split; [|split]].
    + intros b u Hin. apply Hno in Hin as [t Ht]. discriminate.
    + intros; discriminate.
    + intros; discriminate.
    + intros p Hin. apply Hno in Hin as [t Ht]. discriminate.
  - destruct (fopen path) as [f|] eqn:Hopen.
    + destruct (load_ihex_buffer f buffer0 IHEX_BUFFER_MAX_SZ)
        as [[|[e|] b sz]|] eqn:Hload; simplify_eq.
      * split; [|split; [|split]].
        -- intros b' u [Hin|[Hin|[]]]; discriminate.
        -- intros p g e' b' sz' Hargs Hg Hl. simplify_eq. auto.
        -- intros p g Hargs Hg. simplify_eq. reflexivity.
        -- intros p [Hin|[Hin|[]]]; simplify_eq.
           split; [reflexivity|congruence].
      * split; [|split; [|split]].
        -- intros b' u [Hin|[Hin|[]]]; simplify_eq.
           exists path, f. repeat split; auto;
             apply (used_length_below_capacity_aux f buffer0 b' u Hload).
        -- intros p g e' b' sz' Hargs Hg Hl. simplify_eq.
        -- intros p g Hargs Hg. simplify_eq. reflexivity.
        -- intros p [Hin|[Hin|[]]]; simplify_eq.
           split; [reflexivity|congruence].
    + simplify_eq. split; [|split; [|split]].
      * intros b' u [Hin|[]]. discriminate.
      * intros p g e' b' sz' Hargs Hg. simplify_eq.
      * intros p g Hargs Hg. simplify_eq.
      * intros p [Hin|[]]. discriminate.
  - simplify_eq. split; [|split; [|split]].
    + intros b u Hin. apply Hno in Hin as [t Ht]. discriminate.
    + intros; discriminate.
    + intros; discriminate.
    + intros p Hin. apply Hno in Hin as [t Ht]. discriminate.
Qed.

Lemma main_uploads_only_a_loaded_image_witness :
  main "tek-firmware-updater" ["firmware.hex"%string] one_file ihex_buffer
  = Some (Main_returned EXIT_SUCCESS
            [Upload loaded_ihex_buffer 15; Fclose "firmware.hex"]) /\
  last [Upload loaded_ihex_buffer 15; Fclose "firmware.hex"]
  = Some (Fclose "firmware.hex").
Proof.
  assert (H : main "tek-firmware-updater" ["firmware.hex"%string] one_file
                ihex_buffer
              = Some (Main_returned EXIT_SUCCESS
                        [Upload loaded_ihex_buffer 15;
                         Fclose "firmware.hex"]))
    by (vm_compute; reflexivity).
  split; [exact H|].
  exact (proj1 (proj2 (proj2 (main_uploads_only_a_loaded_image
           _ _ _ _ _ _ H))) "firmware.hex"%string small_image_file
           eq_refl eq_refl).
Defined.

(** ** The search for the keyboard *)

Lemma scan_devices_tek devs d st d' st' :
  scan_devices devs (Some d) st = (inr (Some d'), st') <->
  d' = d /\ st' = st /\ Forall is_other devs.
Proof.
  revert st. induction devs as [|it rest IH]; intros st; simpl.
  - split; [intros H; simplify_eq; auto|].
    intros (-> & -> & _). reflexivity.
  - destruct (device_descriptor it) as [status|[v p]] eqn:Hd.
    + split; [discriminate|]. intros (_ & _ & H).
      apply Forall_cons_1 in H as [(v & p & Hv & _) _]. congruence.
    + destruct ((v =? TECK_VENDOR_ID)
                && ((p =? TECK_PRODUCT_ID_NORMAL_STATE)
                    || (p =? TECK_PRODUCT_ID_PROGRAMMABLE_STATE))) eqn:Hm.
      * split; [discriminate|]. intros (_ & _ & H).
        apply Forall_cons_1 in H as [(v' & p' & Hv & Hne) _].
        rewrite Hd in Hv. simplify_eq.
        apply andb_true_iff in Hm as [Hv Hp]. apply Z.eqb_eq in Hv.
        rewrite orb_diag in Hp. apply Z.eqb_eq in Hp. tauto.
      * rewrite IH. split.
        -- intros (-> & -> & H). repeat split; auto. constructor; auto.
           exists v, p. split; [exact Hd|].
           apply andb_false_iff in Hm as [Hv|Hp].
           ++ apply Z.eqb_neq in Hv. auto.
           ++ rewrite orb_diag in Hp. apply Z.eqb_neq in Hp. auto.
        -- intros (-> & -> & H). apply Forall_cons_1 in H as [_ H]. auto.
Qed.

Lemma scan_devices_found devs st d st' :
  scan_devices devs None st = (inr (Some d), st') <->
  exists before after,
    devs = before ++ d :: after /\ is_tek d /\
    Forall is_other before /\ Forall is_other after /\
    st' = TEK_NORMAL_STATE.
Proof.
  revert st. induction devs as [|it rest IH]; intros st; simpl.
  - split; [discriminate|]. intros (b & a & H & _).
    destruct b; discriminate.
  - destruct (device_descriptor it) as [status|[v p]] eqn:Hd.
    + split; [discriminate|]. intros (b & a & H & Ht & Hb & _).
      destruct b as [|x b]; simpl in H; simplify_eq.
      * unfold is_tek in Ht. congruence.
      * apply Forall_cons_1 in Hb as [(v & p & Hv & _) _]. congruence.
    + destruct ((v =? TECK_VENDOR_ID)
                && ((p =? TECK_PRODUCT_ID_NORMAL_STATE)
                    || (p =? TECK_PRODUCT_ID_PROGRAMMABLE_STATE))) eqn:Hm.
      * apply andb_true_iff in Hm as [Hv Hp]. apply Z.eqb_eq in Hv.
        rewrite orb_diag in Hp. apply Z.eqb_eq in Hp. subst v p.
        rewrite scan_devices_tek. split.
        -- intros (-> & -> & H). exists [], rest.
           repeat split; auto.
        -- intros (b & a & H & Ht & Hb & Ha & ->).
           destruct b as [|x b]; simpl in H; simplify_eq; [auto|].
           apply Forall_cons_1 in Hb as [(v & p & Hv & Hne) _].
           rewrite Hd in Hv. simplify_eq. tauto.
      * rewrite IH. split.
        -- intros (b & a & -> & Ht & Hb & Ha & ->).
           exists (it :: b), a. repeat split; auto. constructor; auto.
           exists v, p. split; [exact Hd|].
           apply andb_false_iff in Hm as [Hv|Hp].
           ++ apply Z.eqb_neq in Hv. auto.
           ++ rewrite orb_diag in Hp. apply Z.eqb_neq in Hp. auto.
        -- intros (b & a & H & Ht & Hb & Ha & ->).
           destruct b as [|x b]; simpl in H; simplify_eq.
           ++ unfold is_tek in Ht. rewrite Hd in Ht. simplify_eq.
           ++ apply Forall_cons_1 in Hb as [_ Hb].
              exists b, a. repeat split; auto.
Qed.

(** X18.  [get_handle_to_tek_device] returns a null pointer and a handle
    exactly when the device list holds one TEK, every other device has a
    readable descriptor that does not name a TEK, and the TEK opens; the
    state it reports is then both [TEK_NORMAL_STATE] and
    [TEK_PROGRAMMABLE_STATE], the two being the same number. *)
Theorem one_tek_is_found usb_devices state0 handle state :
  get_handle_to_tek_device (inr usb_devices) state0
  = (None, Some handle, state)
  <->
  exists before tek after,
    usb_devices = before ++ tek :: after /\
    is_tek tek /\ device_open tek = inr handle /\
    Forall is_other before /\ Forall is_other after /\
    state = TEK_NORMAL_STATE /\ state = TEK_PROGRAMMABLE_STATE.
Proof.
  unfold get_handle_to_tek_device.
  destruct (scan_devices usb_devices None state0) as [[e|[d|]] st] eqn:Hscan.
  - split; [discriminate|].
    intros (b & t & a & Hl & Ht & Ho & Hb & Ha & Hs & _).
    assert (H : scan_devices usb_devices None state0
                = (inr (Some t), TEK_NORMAL_STATE))
      by (apply scan_devices_found; exists b, a; auto).
    congruence.
  - apply scan_devices_found in Hscan
      as (b & a & Hl & Ht & Hb & Ha & Hs).
    split.
    + destruct (device_open d) as [status|h] eqn:Ho; [discriminate|].
      intros H. simplify_eq. exists b, d, a. repeat split; auto.
    + intros (b' & t & a' & Hl' & Ht' & Ho & Hb' & Ha' & Hs' & _).
      assert (H : scan_devices usb_devices None state0
                  = (inr (Some t), TEK_NORMAL_STATE))
        by (apply scan_devices_found; exists b', a'; auto).
      assert (H' : scan_devices usb_devices None state0
                   = (inr (Some d), st))
        by (apply scan_devices_found; exists b, a; auto).
      rewrite H in H'. simplify_eq. rewrite Ho. reflexivity.
  - split; [discriminate|].
    intros (b & t & a & Hl & Ht & Ho & Hb & Ha & Hs & _).
    assert (H : scan_devices usb_devices None state0
                = (inr (Some t), TEK_NORMAL_STATE))
      by (apply scan_devices_found; exists b, a; auto).
    congruence.
Qed.

Lemma one_tek_is_found_witness :
  (exists before tek after,
     [a_mouse; a_tek; a_mouse] = before ++ tek :: after /\
     is_tek tek /\ device_open tek = inr 2 /\
     Forall is_other before /\ Forall is_other after /\
     0x030C = TEK_NORMAL_STATE /\ 0x030C = TEK_PROGRAMMABLE_STATE) /\
  get_handle_to_tek_device (inr [a_mouse; a_tek; a_mouse]) 0
  = (None, Some 2, 0x030C).
Proof.
  assert (Hm : is_other a_mouse).
  { exists 0x046D, 0xC077. split; [reflexivity|]. left. discriminate. }
  assert (H : exists before tek after,
     [a_mouse; a_tek; a_mouse] = before ++ tek :: after /\
     is_tek tek /\ device_open tek = inr 2 /\
     Forall is_other before /\ Forall is_other after /\
     0x030C = TEK_NORMAL_STATE /\ 0x030C = TEK_PROGRAMMABLE_STATE).
  { exists [a_mouse], a_tek, [a_mouse]. repeat split; auto. }
  split; [exact H|].
  exact (proj2 (one_tek_is_found [a_mouse; a_tek; a_mouse] 0 2 0x030C) H).
Defined.

Lemma scan_devices_others before : forall rest tek_device st,
  Forall is_other before ->
  scan_devices (before ++ rest) tek_device st
  = scan_devices rest tek_device st.
Proof.
  induction before as [|d before IH]; intros rest acc st H; [reflexivity|].
  apply Forall_cons_1 in H as [(v & p & Hd & Hne) H]. simpl.
  rewrite Hd.
  assert (Hm : (v =? TECK_VENDOR_ID)
               && ((p =? TECK_PRODUCT_ID_NORMAL_STATE)
                   || (p =? TECK_PRODUCT_ID_PROGRAMMABLE_STATE)) = false).
  { rewrite orb_diag. apply andb_false_iff.
    destruct Hne as [Hv|Hp]; [left|right]; apply Z.eqb_neq; assumption. }
  rewrite Hm. apply IH, H.
Qed.

(** X19.  With no TEK among readable devices the search fails with "Unable
    to find a TEK keyboard" and leaves [*tek_device_state] alone; with two
    TEKs it fails with "Multiple TEK keyboards found" at the second one,
    whatever follows it in the list, opens no device, and has already
    overwritten [*tek_device_state] with the state of the first. *)
Theorem no_tek_or_two_teks_is_an_error state0 :
  (forall usb_devices,
     Forall is_other usb_devices ->
     get_handle_to_tek_device (inr usb_devices) state0
     = (Some Unable_to_find_a_TEK_keyboard, None, state0)) /\
  (forall before tek1 between tek2 after,
     Forall is_other before -> is_tek tek1 ->
     Forall is_other between -> is_tek tek2 ->
     get_handle_to_tek_device
       (inr (before ++ tek1 :: between ++ tek2 :: after)) state0
     = (Some Multiple_TEK_keyboards_found, None, TEK_NORMAL_STATE)).
Proof.
  split.
  - intros devs H. unfold get_handle_to_tek_device.
    rewrite <- (app_nil_r devs), scan_devices_others by exact H.
    reflexivity.
  - intros b t1 m t2 a Hb Ht1 Hm Ht2. unfold get_handle_to_tek_device.
    rewrite scan_devices_others by exact Hb.
    simpl. rewrite Ht1. simpl.
    rewrite scan_devices_others by exact Hm.
    simpl. rewrite Ht2. reflexivity.
Qed.

Lemma no_tek_or_two_teks_is_an_error_witness :
  get_handle_to_tek_device (inr [a_mouse; a_tek; a_mouse; a_tek; a_mouse]) 7
  = (Some Multiple_TEK_keyboards_found, None, TEK_NORMAL_STATE).
Proof.
  assert (Hm : is_other a_mouse).
  { exists 0x046D, 0xC077. split; [reflexivity|]. left. discriminate. }
  assert (Hms : Forall is_other [a_mouse]) by (repeat constructor; exact Hm).
  exact (proj2 (no_tek_or_two_teks_is_an_error 7)
           [a_mouse] a_tek [a_mouse] a_tek [a_mouse]
           Hms eq_refl Hms eq_refl).
Defined.

(** ** The last line of a file *)

Lemma fgets_chars_last_line n : forall l,
  Forall (fun c => is_char c LF = false) l ->
  (length l <= n)%nat ->
  fgets_chars n l = (l, []).
Proof.
  induction n as [|n IH]; intros l Hl Hlen.
  - destruct l; [reflexivity|simpl in Hlen; lia].
  - destruct l as [|c l]; [reflexivity|].
    apply Forall_cons_1 in Hl as [Hc Hl]. simpl. rewrite Hc.
    rewrite IH by (simpl in Hlen; auto; lia). reflexivity.
Qed.

Lemma fgets_last_line l :
  Forall (fun c => is_char c LF = false) l ->
  (0 < length l < 520)%nat ->
  fgets IHEX_LINE_MAX_SZ {| contents := l; at_end := End_of_file |}
  = Fgets_line l end_of_stream.
Proof.
  intros Hl Hlen. unfold fgets, IHEX_LINE_MAX_SZ. simpl contents.
  change (521 - 1)%nat with 520%nat.
  rewrite fgets_chars_last_line by (auto; lia). simpl at_end.
  destruct l; [simpl in Hlen; lia|reflexivity].
Qed.

Lemma process_line_eol buffer_sz line st :
  process_line buffer_sz (line ++ [LF]) st = process_line buffer_sz line st.
Proof.
  unfold process_line.
  assert (H : read_record_from_line (line ++ [LF])
              = read_record_from_line line).
  { unfold read_record_from_line.
    rewrite (strip_eol_c_str_app line [LF]) by (repeat constructor).
    reflexivity. }
  rewrite H. reflexivity.
Qed.

Lemma load_loop_last_line buffer_sz l fuel st :
  Forall (fun c => is_char c LF = false) l ->
  (0 < length l < 520)%nat ->
  load_loop fuel buffer_sz {| contents := l; at_end := End_of_file |} st
  = load_loop fuel buffer_sz
      {| contents := l ++ [LF]; at_end := End_of_file |} st.
Proof.
  intros Hl Hlen. destruct fuel as [|fuel]; [reflexivity|]. simpl.
  rewrite (loop_body_line _ _ _ _ _ (fgets_last_line l Hl Hlen)).
  assert (H : fgets IHEX_LINE_MAX_SZ
                {| contents := l ++ [LF]; at_end := End_of_file |}
              = Fgets_line (l ++ [LF]) end_of_stream).
  { apply (fgets_line l [] End_of_file Hl).
    unfold IHEX_LINE_MAX_SZ. lia. }
  rewrite (loop_body_line _ _ _ _ _ H), process_line_eol. reflexivity.
Qed.

Lemma load_loop_two_ends buffer_sz l : forall fuel pre st,
  Forall (fun c => is_char c LF = false) l ->
  (0 < length l < 520)%nat ->
  pre = [] \/ ends_with_LF pre = true ->
  load_loop fuel buffer_sz
    {| contents := pre ++ l; at_end := End_of_file |} st
  = load_loop fuel buffer_sz
      {| contents := pre ++ l ++ [LF]; at_end := End_of_file |} st.
Proof.
  induction fuel as [|fuel IH]; intros pre st Hl Hlen Hpre; [reflexivity|].
  destruct Hpre as [->|Hpre]; [apply load_loop_last_line; assumption|].
  destruct (fgets_prefix pre End_of_file l End_of_file Hpre)
    as (line & r & H0 & H1 & Hr).
  destruct (fgets_prefix pre End_of_file (l ++ [LF]) End_of_file Hpre)
    as (line' & r' & H0' & H2 & _).
  rewrite H0 in H0'. injection H0' as <- <-.
  simpl. rewrite (loop_body_line _ _ _ _ _ H1), (loop_body_line _ _ _ _ _ H2).
  destruct (last_record_read st); [reflexivity|].
  destruct (process_line buffer_sz line (next_line st)); [|reflexivity].
  apply IH; assumption.
Qed.

(** X20.  The last line needs no new line behind it: a file whose last
    line is not empty and shorter than 520 characters gives the same
    result with and without a new line at its very end. *)
Theorem last_line_needs_no_new_line pre l buffer0 buffer_sz :
  pre = [] \/ ends_with_LF pre = true ->
  Forall (fun c => is_char c LF = false) l ->
  (0 < length l < 520)%nat ->
  load_ihex_buffer {| contents := pre ++ l; at_end := End_of_file |}
    buffer0 buffer_sz
  = load_ihex_buffer
      {| contents := pre ++ l ++ [LF]; at_end := End_of_file |}
      buffer0 buffer_sz.
Proof.
  intros Hpre Hl Hlen.
  destruct (Z.eq_dec buffer_sz 0) as [->|Hsz]; [reflexivity|].
  set (f1 := {| contents := pre ++ l; at_end := End_of_file |}).
  set (f2 := {| contents := pre ++ l ++ [LF]; at_end := End_of_file |}).
  set (fuel := S (length (contents f2))).
  assert (H1 : load_loop fuel buffer_sz f1 (initial_state buffer0)
               = load_ihex_buffer f1 buffer0 buffer_sz).
  { destruct (load_ihex_buffer_returns f1 buffer0 buffer_sz) as [o Ho].
    rewrite Ho. rewrite load_ihex_buffer_run in Ho by exact Hsz.
    apply load_loop_more_fuel with (fuel := S (length (contents f1)));
      [exact Ho|].
    unfold fuel, f1, f2. simpl contents. rewrite !length_app. simpl. lia. }
  rewrite <- H1. rewrite (load_ihex_buffer_run f2) by exact Hsz.
  apply load_loop_two_ends; assumption.
Qed.

Lemma last_line_needs_no_new_line_witness :
  (chars (":04000B00DEADBEEFB9" ++ nl) = []
   \/ ends_with_LF (chars (":04000B00DEADBEEFB9" ++ nl)) = true) /\
  Forall (fun c => is_char c LF = false) (chars ":00000001FF") /\
  (0 < length (chars ":00000001FF") < 520)%nat /\
  load_ihex_buffer
    {| contents := chars (":04000B00DEADBEEFB9" ++ nl) ++ chars ":00000001FF";
       at_end := End_of_file |} (repeat 0 16) 16
  = load_ihex_buffer
      {| contents := chars (":04000B00DEADBEEFB9" ++ nl)
                     ++ chars ":00000001FF" ++ [LF];
         at_end := End_of_file |} (repeat 0 16) 16.
Proof.
  assert (Hpre : chars (":04000B00DEADBEEFB9" ++ nl) = []
                 \/ ends_with_LF (chars (":04000B00DEADBEEFB9" ++ nl)) = true)
    by (right; reflexivity).
  assert (Hl : Forall (fun c => is_char c LF = false) (chars ":00000001FF"))
    by (repeat constructor).
  assert (Hlen : (0 < length (chars ":00000001FF") < 520)%nat)
    by (simpl; lia).
  split; [exact Hpre|]. split; [exact Hl|]. split; [exact Hlen|].
  exact (last_line_needs_no_new_line _ _ (repeat 0 16) 16 Hpre Hl Hlen).
Defined.

(** ** Loading into a loaded buffer *)

(** The dispatch decides without looking at the buffer. *)
Lemma process_record_same_control buffer_sz r st1 st2 :
  same_control st1 st2 ->
  match process_record buffer_sz r st1 with
  | Continue st1' =>
      exists st2', process_record buffer_sz r st2 = Continue st2' /\
                   same_control st1' st2'
  | Return e _ => process_record buffer_sz r st2 = Return e st2
  end.
Proof.
  intros (Hn & Hh & Hf). unfold process_record.
  rewrite <- Hn, <- Hh, <- Hf.
  destruct (type r =? 0).
  - destruct (addr r + size r >=? buffer_sz); [reflexivity|].
    eexists. split; [reflexivity|]. repeat split; simpl; auto.
  - destruct (type r =? 1).
    + eexists. split; [reflexivity|]. repeat split; simpl; auto.
    + destruct ((2 <=? type r) && (type r <=? 5)); reflexivity.
Qed.

Lemma same_control_next_line st1 st2 :
  same_control st1 st2 -> same_control (next_line st1) (next_line st2).
Proof.
  intros (Hn & Hh & Hf). unfold same_control. simpl.
  rewrite Hn, Hh, Hf. auto.
Qed.

Lemma reads_same_control buffer_sz f st1 rs f' st1' :
  reads buffer_sz f st1 rs f' st1' ->
  forall st2, same_control st1 st2 ->
  exists st2', reads buffer_sz f st2 rs f' st2' /\ same_control st1' st2'.
Proof.
  induction 1 as [|f st line rest r cs sta rs f2 stb Hline Hflag Hread Hsum
                    Hrec _ IH]; intros st2 Hsame.
  - exists st2. split; [apply reads_nil|exact Hsame].
  - pose proof (process_record_same_control buffer_sz r _ _
                  (same_control_next_line _ _ Hsame)) as Hstep.
    rewrite Hrec in Hstep. destruct Hstep as (sta2 & Hrec2 & Hsame2).
    destruct (IH sta2 Hsame2) as (stb2 & Hreads2 & Hsameb).
    exists stb2. split; [|exact Hsameb].
    eapply reads_cons; eauto.
    destruct Hsame as (_ & _ & <-). exact Hflag.
Qed.

Lemma loop_body_exit_same_control buffer_sz f st1 st2 ret buffer' buffer_sz' :
  same_control st1 st2 ->
  loop_body buffer_sz f st1 = Exit (Returned ret buffer' buffer_sz') ->
  loop_body buffer_sz f st2 = Exit (Returned ret (buffer st2) buffer_sz').
Proof.
  intros Hsame H. pose proof Hsame as (Hn & Hh & Hf).
  unfold loop_body in *.
  destruct (fgets IHEX_LINE_MAX_SZ f) as [line rest| |msg];
    cbn [next_line line_number buffer highest_addr last_record_read] in *.
  - rewrite <- Hf, <- Hn.
    destruct (last_record_read st1); [simplify_eq; reflexivity|].
    unfold process_line in *.
    destruct (read_record_from_line line) as [e|[r cs]];
      [simplify_eq; reflexivity|].
    destruct (negb _);
      [cbn [next_line line_number buffer] in *; rewrite <- Hn;
       simplify_eq; reflexivity|].
    pose proof (process_record_same_control buffer_sz r _ _
                  (same_control_next_line _ _ Hsame)) as Hstep.
    destruct (process_record buffer_sz r (next_line st1)); [discriminate|].
    rewrite Hstep. simplify_eq. reflexivity.
  - rewrite <- Hf, <- Hn, <- Hh.
    destruct (last_record_read st1); simplify_eq; reflexivity.
  - rewrite <- Hn. simplify_eq. reflexivity.
Qed.

(** X21.  Loading a file into the buffer an earlier load of the same file
    left gives the same return value and the same used length and leaves
    the buffer as it is: the outcome does not depend on what the buffer
    holds, and the bytes a load writes are the bytes it wrote before. *)
Theorem loading_again_changes_nothing
    f buffer0 buffer_sz ret buffer' buffer_sz' :
  buffer_sz <= Z.of_nat (length buffer0) ->
  load_ihex_buffer f buffer0 buffer_sz
  = Some (Returned ret buffer' buffer_sz') ->
  load_ihex_buffer f buffer' buffer_sz
  = Some (Returned ret buffer' buffer_sz').
Proof.
  intros Hcap H.
  assert (Hsz : buffer_sz <> 0).
  { intros ->. unfold load_ihex_buffer in H. simpl in H. discriminate. }
  apply load_exit in H as (rs & f' & st' & Hreads & Hexit & ->).
  assert (Hsame : same_control (initial_state buffer0)
                    (initial_state (buffer st')))
    by (repeat split).
  destruct (reads_same_control _ _ _ _ _ _ Hreads _ Hsame)
    as (st2 & Hreads2 & Hsame2).
  pose proof (loop_body_exit_same_control _ _ _ _ _ _ _ Hsame2 Hexit)
    as Hexit2.
  rewrite load_ihex_buffer_run by exact Hsz.
  rewrite (run_iterates _ _ _ _ _ (reads_iterates _ _ _ _ _ _ Hreads2)).
  rewrite (run_exit _ _ _ _ Hexit2). do 2 f_equal.
  pose proof (reads_length _ _ _ _ _ _ Hreads) as Hlen1.
  pose proof (reads_length _ _ _ _ _ _ Hreads2) as Hlen2.
  simpl in Hlen1, Hlen2.
  apply list_eq. intros j.
  rewrite (reads_last_write _ _ _ _ _ _ Hreads2) by (simpl; lia).
  simpl. rewrite (reads_last_write _ _ _ _ _ _ Hreads Hcap j).
  simpl. destruct (last_write rs j); reflexivity.
Qed.

Lemma loading_again_changes_nothing_witness :
  16 <= Z.of_nat (length (repeat 0 16)) /\
  load_ihex_buffer small_image_file (repeat 0 16) 16
  = Some (Returned None (buffer state_after_small_image) 15) /\
  load_ihex_buffer small_image_file (buffer state_after_small_image) 16
  = Some (Returned None (buffer state_after_small_image) 15).
Proof.
  assert (Hcap : 16 <= Z.of_nat (length (repeat 0 16))) by (simpl; lia).
  assert (H : load_ihex_buffer small_image_file (repeat 0 16) 16
    = Some (Returned None (buffer state_after_small_image) 15))
    by reflexivity.
  split; [exact Hcap|]. split; [exact H|].
  exact (loading_again_changes_nothing _ _ _ _ _ _ Hcap H).
Defined.
